(** * stickbot: the GPIO pin wrappers of [src/stickbot/gpio.py] and the
    board table of [src/stickbot/utils.py]

    The wrappers are Python classes that mutate [self] and call into the
    vendor GPIO library ([Jetson.GPIO] / [RPi.GPIO]).  They are embedded as
    programs of a state-and-exception monad: the state is the pair of the
    object's attributes and the driver, a [raise] keeps the state reached so
    far, exactly as a Python exception leaves the attributes already
    assigned in place. *)

From stdpp Require Import base option list strings gmap.
From Stdlib Require Import ZArith Lia.
From stdpp Require Import pretty.

Local Open Scope Z_scope.

(** ** Values of the vendor library *)

(** [GPIO.HIGH] and [GPIO.LOW]: the two levels of a line.  The constructor's
    docstring types [initial_value] as one of them. *)
Inductive Level := LOW | HIGH.

#[global] Instance Level_eq_dec : EqDecision Level.
Proof. solve_decision. Defined.

(** The integer the library uses for a level ([LOW = 0], [HIGH = 1]). *)
Definition level_value (v : Level) : Z :=
  match v with LOW => 0 | HIGH => 1 end.

(** [GPIO.OUT], [GPIO.IN] and [GPIO.BOARD] are plain integers; a direction
    or a mode received from a caller is any integer, which is why
    [DigitalPin.__init__] has an [else] branch. *)
Definition OUT : Z := 0.
Definition IN : Z := 1.
Definition BOARD : Z := 10.
Definition BCM : Z := 11.

(** ** The driver *)

(** The calls the wrappers make on the driver.  [Setup pin dir None] stands
    for both [GPIO.setup(pin, dir)] and [GPIO.setup(pin, dir, initial=None)].
    The [Pwm*] calls are the methods of the object [GPIO.PWM(pin, f)]
    returns, named by the pin it was created for. *)
Inductive HalCall :=
  | SetMode (mode : Z)
  | Setup (pin dir : Z) (initial : option Level)
  | Output (pin : Z) (value : Level)
  | Input (pin : Z)
  | Cleanup (pin : Z)
  | PwmNew (pin frequency : Z)
  | PwmStart (pin duty_cycle : Z)
  | PwmStop (pin : Z)
  | PwmChangeFrequency (pin frequency : Z)
  | PwmChangeDutyCycle (pin duty_cycle : Z).

#[global] Instance HalCall_eq_dec : EqDecision HalCall.
Proof. solve_decision. Defined.

(** The driver is outside the repository.  Its state is what the wrappers
    can observe of it: the numbering mode [GPIO.getmode()] returns, and the
    calls it has accepted, oldest first.  Whether it rejects a call and
    what [GPIO.input] reads are left to two oracles over the history, so a
    statement about every [Hal] holds for every deterministic driver. *)
Record Hal := {
  hal_mode : option Z;
  hal_log : list HalCall;
  hal_faults : list HalCall -> HalCall -> bool;
  hal_reads : list HalCall -> Z -> Level
}.

(** ** Exceptions and the monad *)

Inductive exn :=
  | ValueError (msg : string)
  | AttributeError (attr : string)
  | HardwareFault (call : HalCall).

Inductive outcome (A : Type) :=
  | Returned (a : A)
  | Raised (e : exn).
Arguments Returned {A} a.
Arguments Raised {A} e.

Definition M (S A : Type) : Type := S -> outcome A * S.

Definition ret {S A} (a : A) : M S A := fun s => (Returned a, s).

Definition raise {S A} (e : exn) : M S A := fun s => (Raised e, s).

Definition bind {S A B} (m : M S A) (k : A -> M S B) : M S B :=
  fun s =>
    match m s with
    | (Returned a, s') => k a s'
    | (Raised e, s') => (Raised e, s')
    end.

Notation "x <- m ;; k" := (bind m (fun x => k))
  (at level 20, m at level 99, k at level 200, only parsing).
Notation "m ;; k" := (bind m (fun _ => k))
  (at level 100, k at level 200, only parsing, right associativity).

(** A program on the driver run inside a method: [self] is untouched. *)
Definition on_hal {O A} (m : M Hal A) : M (O * Hal) A :=
  fun s =>
    match m (snd s) with
    | (r, h') => (r, (fst s, h'))
    end.

(** Reading [self] and assigning to its attributes. *)
Definition self {O} : M (O * Hal) O := fun s => (Returned (fst s), s).

Definition assign {O} (f : O -> O) : M (O * Hal) unit :=
  fun s => (Returned tt, (f (fst s), snd s)).

(** Whether the driver accepts call [c] now. *)
Definition accepts (h : Hal) (c : HalCall) : Prop :=
  hal_faults h (hal_log h) c = false.

(** The driver after it accepted [c]: the call is logged, and [setmode] is
    what [getmode] reports afterwards. *)
Definition logged (c : HalCall) (h : Hal) : Hal :=
  {| hal_mode := match c with SetMode m => Some m | _ => hal_mode h end;
     hal_log := hal_log h ++ [c];
     hal_faults := hal_faults h;
     hal_reads := hal_reads h |}.

(** One call on the driver: a rejected call raises and leaves no trace. *)
Definition hal_call (c : HalCall) : M Hal unit :=
  fun h =>
    if hal_faults h (hal_log h) c then (Raised (HardwareFault c), h)
    else (Returned tt, logged c h).

Definition getmode : M Hal (option Z) := fun h => (Returned (hal_mode h), h).

(** [GPIO.input(pin)]: the call, then the level the driver reports. *)
Definition hal_input (pin : Z) : M Hal Level :=
  fun h =>
    match hal_call (Input pin) h with
    | (Returned _, h') => (Returned (hal_reads h (hal_log h) pin), h')
    | (Raised e, h') => (Raised e, h')
    end.

(** The block both constructors start with:
<<
    if GPIO.getmode() is None:
        GPIO.setmode(GPIO.BOARD)
    elif GPIO.getmode() != GPIO.BOARD:
        raise ValueError("GPIO mode already set to different mode")
>> *)
Definition mode_conflict : exn :=
  ValueError "GPIO mode already set to different mode".

Definition ensure_board_mode : M Hal unit :=
  mode <- getmode ;;
  match mode with
  | None => hal_call (SetMode BOARD)
  | Some _ =>
      mode' <- getmode ;;
      if decide (mode' <> Some BOARD) then raise mode_conflict else ret tt
  end.

(** The driver of the test suite: a mock that accepts every call and reads
    every line low. *)
Definition mock_hal (mode : option Z) : Hal :=
  {| hal_mode := mode; hal_log := [];
     hal_faults := fun _ _ => false;
     hal_reads := fun _ _ => LOW |}.

(** ** [class DigitalPin] *)
Module DigitalPin.

Record t := {
  pin_number : Z;
  direction : Z;
  _current_value : option Level
}.

(** The object while [__init__] runs: an attribute is [None] until its
    first assignment. *)
Record attrs := {
  a_pin_number : option Z;
  a_direction : option Z;
  a_current_value : option (option Level)
}.

Definition blank : attrs :=
  {| a_pin_number := None; a_direction := None; a_current_value := None |}.

Definition set_pin_number (p : Z) (o : attrs) : attrs :=
  {| a_pin_number := Some p; a_direction := a_direction o;
     a_current_value := a_current_value o |}.

Definition set_direction (d : Z) (o : attrs) : attrs :=
  {| a_pin_number := a_pin_number o; a_direction := Some d;
     a_current_value := a_current_value o |}.

Definition init_current_value (v : option Level) (o : attrs) : attrs :=
  {| a_pin_number := a_pin_number o; a_direction := a_direction o;
     a_current_value := Some v |}.

Definition bad_direction : exn :=
  ValueError "Direction must be GPIO.IN or GPIO.OUT".

(** [DigitalPin.__init__(self, pin_number, direction, initial_value=None)] *)
Definition __init__ (pin dir : Z) (initial_value : option Level)
  : M (attrs * Hal) unit :=
  assign (set_pin_number pin) ;;
  assign (set_direction dir) ;;
  on_hal ensure_board_mode ;;
  if decide (dir = OUT) then
    on_hal (hal_call (Setup pin OUT initial_value)) ;;
    assign (init_current_value
              (Some (match initial_value with Some v => v | None => LOW end)))
  else if decide (dir = IN) then
    on_hal (hal_call (Setup pin IN None)) ;;
    assign (init_current_value None)
  else raise bad_direction.

(** The finished object, when every attribute has been assigned. *)
Definition seal (o : attrs) : option t :=
  match a_pin_number o, a_direction o, a_current_value o with
  | Some p, Some d, Some v =>
      Some {| pin_number := p; direction := d; _current_value := v |}
  | _, _, _ => None
  end.

(** [DigitalPin(pin, dir, initial_value)]: allocate, run [__init__], and
    hand the object to the caller unless [__init__] raised. *)
Definition new (pin dir : Z) (initial_value : option Level) : M Hal t :=
  fun h =>
    match __init__ pin dir initial_value (blank, h) with
    | (Returned _, (o, h')) =>
        match seal o with
        | Some d => (Returned d, h')
        | None => (Raised (AttributeError "_current_value"), h')
        end
    | (Raised e, (_, h')) => (Raised e, h')
    end.

Definition with_value (v : option Level) (d : t) : t :=
  {| pin_number := pin_number d; direction := direction d;
     _current_value := v |}.

Definition not_output : exn := ValueError "Pin is not configured as output".

Definition set_high : M (t * Hal) unit :=
  d <- self ;;
  if decide (direction d <> OUT) then raise not_output
  else
    on_hal (hal_call (Output (pin_number d) HIGH)) ;;
    assign (with_value (Some HIGH)).

Definition set_low : M (t * Hal) unit :=
  d <- self ;;
  if decide (direction d <> OUT) then raise not_output
  else
    on_hal (hal_call (Output (pin_number d) LOW)) ;;
    assign (with_value (Some LOW)).

Definition toggle : M (t * Hal) unit :=
  d <- self ;;
  if decide (direction d <> OUT) then raise not_output
  else if decide (_current_value d = Some HIGH) then set_low
  else set_high.

Definition read : M (t * Hal) Level :=
  d <- self ;;
  value <- on_hal (hal_input (pin_number d)) ;;
  (if decide (direction d = IN) then assign (with_value (Some value))
   else ret tt) ;;
  ret value.

Definition get_value : M (t * Hal) (option Level) :=
  d <- self ;;
  ret (_current_value d).

Definition cleanup : M (t * Hal) unit :=
  d <- self ;;
  on_hal (hal_call (Cleanup (pin_number d))).

End DigitalPin.

(** ** [class PWMPin] *)
Module PWMPin.

(** [self._pwm] is the driver's PWM object for [pin_number]; its calls
    are the [Pwm*] entries of the log. *)
Record t := {
  pin_number : Z;
  frequency : Z;
  _duty_cycle : Z;
  _started : bool
}.

Definition with_frequency (f : Z) (p : t) : t :=
  {| pin_number := pin_number p; frequency := f;
     _duty_cycle := _duty_cycle p; _started := _started p |}.

Definition with_duty_cycle (dc : Z) (p : t) : t :=
  {| pin_number := pin_number p; frequency := frequency p;
     _duty_cycle := dc; _started := _started p |}.

Definition with_started (b : bool) (p : t) : t :=
  {| pin_number := pin_number p; frequency := frequency p;
     _duty_cycle := _duty_cycle p; _started := b |}.

(** [PWMPin(pin_number, frequency=1000)].  [__init__] assigns the four
    attributes before it touches the driver; the object reaches the
    caller only when nothing raised. *)
Definition new (pin freq : Z) : M Hal t :=
  ensure_board_mode ;;
  hal_call (Setup pin OUT (Some LOW)) ;;
  hal_call (PwmNew pin freq) ;;
  ret {| pin_number := pin; frequency := freq;
         _duty_cycle := 0; _started := false |}.

Definition bad_duty_cycle : exn :=
  ValueError "Duty cycle must be between 0 and 100".

(** [0 <= duty_cycle <= 100] *)
Definition in_range (duty_cycle : Z) : bool :=
  (0 <=? duty_cycle) && (duty_cycle <=? 100).

Definition start (duty_cycle : Z) : M (t * Hal) unit :=
  if negb (in_range duty_cycle) then raise bad_duty_cycle
  else
    assign (with_duty_cycle duty_cycle) ;;
    p <- self ;;
    on_hal (hal_call (PwmStart (pin_number p) duty_cycle)) ;;
    assign (with_started true).

Definition stop : M (t * Hal) unit :=
  p <- self ;;
  if _started p then
    on_hal (hal_call (PwmStop (pin_number p))) ;;
    assign (with_started false)
  else ret tt.

Definition change_frequency (freq : Z) : M (t * Hal) unit :=
  assign (with_frequency freq) ;;
  p <- self ;;
  if _started p then
    on_hal (hal_call (PwmChangeFrequency (pin_number p) freq))
  else ret tt.

Definition change_duty_cycle (duty_cycle : Z) : M (t * Hal) unit :=
  if negb (in_range duty_cycle) then raise bad_duty_cycle
  else
    assign (with_duty_cycle duty_cycle) ;;
    p <- self ;;
    if _started p then
      on_hal (hal_call (PwmChangeDutyCycle (pin_number p) duty_cycle))
    else ret tt.

Definition is_started : M (t * Hal) bool :=
  p <- self ;; ret (_started p).

Definition get_duty_cycle : M (t * Hal) Z :=
  p <- self ;; ret (_duty_cycle p).

Definition get_frequency : M (t * Hal) Z :=
  p <- self ;; ret (frequency p).

Definition cleanup : M (t * Hal) unit :=
  stop ;;
  p <- self ;;
  on_hal (hal_call (Cleanup (pin_number p))).

End PWMPin.

(** ** A process using the wrappers *)

(** The objects a program holds, by order of creation, and the driver they
    share. *)
Record World := {
  hal : Hal;
  dpins : list DigitalPin.t;
  ppins : list PWMPin.t
}.

Definition boot (h : Hal) : World := {| hal := h; dpins := []; ppins := [] |}.

(** What a program can do with the two classes.  Objects are named by
    their index in the world. *)
Inductive Call :=
  | NewDigitalPin (pin dir : Z) (initial_value : option Level)
  | DSetHigh (i : nat)
  | DSetLow (i : nat)
  | DToggle (i : nat)
  | DRead (i : nat)
  | DCleanup (i : nat)
  | NewPWMPin (pin freq : Z)
  | PStart (i : nat) (duty_cycle : Z)
  | PStop (i : nat)
  | PChangeFrequency (i : nat) (freq : Z)
  | PChangeDutyCycle (i : nat) (duty_cycle : Z)
  | PCleanup (i : nat).

(** Forget the value a method returned. *)
Definition void {A} (r : outcome A) : outcome unit :=
  match r with Returned _ => Returned tt | Raised e => Raised e end.

(** A method call on the [i]-th digital pin: the object and the driver are
    left as the method left them, whether it returned or raised.  A call on
    an object that was never created changes nothing. *)
Definition on_dpin {A} (i : nat) (m : M (DigitalPin.t * Hal) A) : M World unit :=
  fun w =>
    match dpins w !! i with
    | Some d =>
        match m (d, hal w) with
        | (r, (d', h')) =>
            (void r, {| hal := h'; dpins := <[i:=d']> (dpins w); ppins := ppins w |})
        end
    | None => (Raised (AttributeError "self"), w)
    end.

Definition on_ppin {A} (i : nat) (m : M (PWMPin.t * Hal) A) : M World unit :=
  fun w =>
    match ppins w !! i with
    | Some p =>
        match m (p, hal w) with
        | (r, (p', h')) =>
            (void r, {| hal := h'; dpins := dpins w; ppins := <[i:=p']> (ppins w) |})
        end
    | None => (Raised (AttributeError "self"), w)
    end.

Definition perform (c : Call) : M World unit :=
  match c with
  | NewDigitalPin pin dir v =>
      fun w =>
        match DigitalPin.new pin dir v (hal w) with
        | (Returned d, h') =>
            (Returned tt, {| hal := h'; dpins := dpins w ++ [d]; ppins := ppins w |})
        | (Raised e, h') =>
            (Raised e, {| hal := h'; dpins := dpins w; ppins := ppins w |})
        end
  | DSetHigh i => on_dpin i DigitalPin.set_high
  | DSetLow i => on_dpin i DigitalPin.set_low
  | DToggle i => on_dpin i DigitalPin.toggle
  | DRead i => on_dpin i DigitalPin.read
  | DCleanup i => on_dpin i DigitalPin.cleanup
  | NewPWMPin pin freq =>
      fun w =>
        match PWMPin.new pin freq (hal w) with
        | (Returned p, h') =>
            (Returned tt, {| hal := h'; dpins := dpins w; ppins := ppins w ++ [p] |})
        | (Raised e, h') =>
            (Raised e, {| hal := h'; dpins := dpins w; ppins := ppins w |})
        end
  | PStart i dc => on_ppin i (PWMPin.start dc)
  | PStop i => on_ppin i PWMPin.stop
  | PChangeFrequency i f => on_ppin i (PWMPin.change_frequency f)
  | PChangeDutyCycle i dc => on_ppin i (PWMPin.change_duty_cycle dc)
  | PCleanup i => on_ppin i PWMPin.cleanup
  end.

(** A program that catches every exception and goes on: the world after a
    list of calls. *)
Fixpoint run (cs : list Call) (w : World) : World :=
  match cs with
  | [] => w
  | c :: cs' => run cs' (snd (perform c w))
  end.

(** ** [utils.get_available_pins] *)

(** A key of a [notes] dictionary is a pin number, or the string
    ['unknown'] of the fallback entry. *)
Record BoardInfo := {
  digital : list Z;
  pwm_capable : list Z;
  notes : gmap (Z + string) string
}.

Definition header_pins : list Z :=
  [7; 11; 12; 13; 15; 16; 18; 19; 21; 22; 23; 24; 26; 29; 31; 32; 33; 35;
   36; 37; 38; 40].

Definition pwm_note : string := "PWM capable - may need pinmux configuration".

Definition board_pins : gmap string BoardInfo :=
  <["JETSON_ORIN_NANO" :=
      {| digital := [7; 11; 12; 13; 15; 16; 18; 19; 21; 22; 23; 24; 26; 29;
                     31; 32; 33; 35; 36; 37; 38; 40];
         pwm_capable := [15; 33];
         notes := <[inl 15 := pwm_note]>
                  (<[inl 33 := pwm_note]>
                  (<[inl 36 := "May be input-only depending on base board"]> ∅)) |}]>
  (<["JETSON_ORIN_NX" :=
      {| digital := [7; 11; 12; 13; 15; 16; 18; 19; 21; 22; 23; 24; 26; 29;
                     31; 32; 33; 35; 36; 37; 38; 40];
         pwm_capable := [15; 33];
         notes := <[inl 15 := pwm_note]> (<[inl 33 := pwm_note]> ∅) |}]>
  (<["JETSON_ORIN" :=
      {| digital := [7; 11; 12; 13; 15; 16; 18; 19; 21; 22; 23; 24; 26; 29;
                     31; 32; 33; 35; 36; 37; 38; 40];
         pwm_capable := [15; 18];
         notes := <[inl 15 := pwm_note]> (<[inl 18 := pwm_note]> ∅) |}]> ∅)).

(** The default of [board_pins.get(model, ...)]. *)
Definition unknown_board (model : string) : BoardInfo :=
  {| digital := [7; 11; 12; 13; 15; 16; 18; 19; 21; 22; 23; 24; 26; 29;
                 31; 32; 33; 35; 36; 37; 38; 40];
     pwm_capable := [];
     notes := <[inr "unknown" := "Unknown board model: " +:+ model]> ∅ |}.

(** [get_available_pins()], with [GPIO.model] as its argument. *)
Definition get_available_pins (model : string) : BoardInfo :=
  match board_pins !! model with
  | Some info => info
  | None => unknown_board model
  end.

(** ** Reading the driver's log *)

(** Whether a call tells the driver to put [pin] at level [v]: a write of
    that level, or a setup as output with that initial level. *)
Definition drives (pin : Z) (v : Level) (c : HalCall) : bool :=
  match c with
  | Output p v' => bool_decide (p = pin /\ v' = v)
  | Setup p d (Some v') => bool_decide (p = pin /\ d = OUT /\ v' = v)
  | _ => false
  end.

(** Whether a call configures a pin. *)
Definition is_setup (c : HalCall) : bool :=
  match c with Setup _ _ _ => true | _ => false end.

(** ** The module-level functions of [utils.py] *)

(** These functions have no [self]: the state beside the driver is the
    console, the lines printed so far. *)
Definition print (line : string) : M (list string * Hal) unit :=
  assign (fun out => out ++ [line]).

(** [try: body finally: fin].  The finaliser always runs; when it raises,
    its exception is the one that leaves the block. *)
Definition try_finally {S A} (body : M S A) (fin : M S unit) : M S A :=
  fun s =>
    match body s with
    | (r, s1) =>
        match fin s1 with
        | (Returned _, s2) => (r, s2)
        | (Raised e, s2) => (Raised e, s2)
        end
    end.

(** [for i in range(...): body], with [n] rounds left and [i] the next
    index. *)
Fixpoint for_range {S} (n : nat) (i : Z) (body : Z -> M S unit) : M S unit :=
  match n with
  | O => ret tt
  | Datatypes.S n' => body i ;; for_range n' (i + 1) body
  end.

(** [time.sleep(duration / 2)].  The wait has no effect on the state;
    Python raises [ValueError] for a negative length, and half of an
    integer [duration] is negative exactly when [duration] is. *)
Definition sleep_half {S} (duration : Z) : M S unit :=
  if decide (duration < 0)
  then raise (ValueError "sleep length must be non-negative")
  else ret tt.

(** The block [blink_led] and [read_pin_state] start with:
<<
    if GPIO.getmode() is None:
        GPIO.setmode(GPIO.BOARD)
>>
    It has no [elif]: another mode is left as it is. *)
Definition default_board_mode : M Hal unit :=
  mode <- getmode ;;
  match mode with
  | None => hal_call (SetMode BOARD)
  | Some _ => ret tt
  end.

(** [f"Blink {n}/{times}"] *)
Definition blink_line (times n : Z) : string :=
  "Blink " +:+ pretty n +:+ "/" +:+ pretty times.

(** One round of the loop of [blink_led]. *)
Definition blink_once (pin duration times i : Z) : M (list string * Hal) unit :=
  on_hal (hal_call (Output pin HIGH)) ;;
  sleep_half duration ;;
  on_hal (hal_call (Output pin LOW)) ;;
  sleep_half duration ;;
  print (blink_line times (i + 1)).

(** [blink_led(pin, duration=1.0, times=5)], with [duration] a whole number
    of seconds. *)
Definition blink_led (pin duration times : Z) : M (list string * Hal) unit :=
  on_hal default_board_mode ;;
  on_hal (hal_call (Setup pin OUT (Some LOW))) ;;
  try_finally
    (for_range (Z.to_nat times) 0 (blink_once pin duration times))
    (on_hal (hal_call (Output pin LOW))).

(** [read_pin_state(pin)] *)
Definition read_pin_state (pin : Z) : M (list string * Hal) Level :=
  on_hal default_board_mode ;;
  on_hal (hal_call (Setup pin IN None)) ;;
  state <- on_hal (hal_input pin) ;;
  print ("Pin " +:+ pretty pin +:+ " state: "
         +:+ (if decide (state = HIGH) then "HIGH" else "LOW")) ;;
  ret state.

Definition mode_not_board : exn := ValueError "GPIO mode must be BOARD".

(** [wait_for_signal(pin, edge_type=GPIO.BOTH, timeout=None)].  The
    driver's [GPIO.wait_for_edge] is an argument: a program on the driver
    that answers the pin, or [None] on a timeout. *)
Definition wait_for_signal
  (wait_for_edge : Z -> Z -> option Z -> M Hal (option Z))
  (pin edge_type : Z) (timeout : option Z) : M Hal (option Z) :=
  mode <- getmode ;;
  if decide (mode <> Some BOARD) then raise mode_not_board
  else
    hal_call (Setup pin IN None) ;;
    wait_for_edge pin edge_type timeout.

(** ** Invariants of a running process *)

(** A program keeps the numbering mode once it is set: [mode] reads the
    mode off the state. *)
Definition sticky {S A} (mode : S -> option Z) (m : M S A) : Prop :=
  forall (s : S) (z : Z), mode s = Some z -> mode (snd (m s)) = Some z.

(** An output pin has a last known value. *)
Definition valued (d : DigitalPin.t) : Prop :=
  DigitalPin.direction d = OUT -> is_Some (DigitalPin._current_value d).

(** A program on a digital pin keeps it valued. *)
Definition keeps_valued {A} (m : M (DigitalPin.t * Hal) A) : Prop :=
  forall (d : DigitalPin.t) (h : Hal), valued d -> valued (fst (snd (m (d, h)))).

(** [invert] of the specification: the other level. *)
Definition invert (v : Level) : Level :=
  match v with LOW => HIGH | HIGH => LOW end.

(** ** Further vocabulary for the properties *)

(** A driver that never rejects a call, such as the mock of the tests. *)
Definition reliable (h : Hal) : Prop :=
  forall (l : list HalCall) (c : HalCall), hal_faults h l c = false.

(** [n] toggles in a row. *)
Fixpoint toggles (n : nat) : M (DigitalPin.t * Hal) unit :=
  match n with
  | O => ret tt
  | Datatypes.S n' => DigitalPin.toggle ;; toggles n'
  end.

(** The levels [n] toggles write, starting from the level [v]. *)
Fixpoint alternate (n : nat) (v : Level) : list Level :=
  match n with
  | O => []
  | Datatypes.S n' => invert v :: alternate n' (invert v)
  end.

(** A stored duty cycle within bounds. *)
Definition duty_ok (p : PWMPin.t) : Prop :=
  0 <= PWMPin._duty_cycle p <= 100.

(** Whether a call starts the PWM channel of [pin]. *)
Definition starts (pin : Z) (c : HalCall) : bool :=
  match c with
  | PwmStart p _ => bool_decide (p = pin)
  | _ => false
  end.

(** Whether a call sets [pin] up in direction [dir]. *)
Definition sets_up (pin dir : Z) (c : HalCall) : bool :=
  match c with
  | Setup p d _ => bool_decide (p = pin /\ d = dir)
  | _ => false
  end.

(** Whether a call is one the methods of the two classes make: a write, a
    read, a clean-up or a call on a PWM channel. *)
Definition is_method_call (c : HalCall) : bool :=
  match c with
  | SetMode _ | Setup _ _ _ | PwmNew _ _ => false
  | _ => true
  end.

(** What one method call may do to a digital pin and the driver: the pin
    keeps its number and direction, and the driver's log grows by calls
    that are method calls. *)
Definition dpin_effect (d : DigitalPin.t) (h : Hal) (d' : DigitalPin.t) (h' : Hal)
  : Prop :=
  DigitalPin.pin_number d' = DigitalPin.pin_number d
  /\ DigitalPin.direction d' = DigitalPin.direction d
  /\ exists l : list HalCall,
       hal_log h' = hal_log h ++ l /\ forallb is_method_call l = true.

(** The same for a PWM pin: it keeps its number, a duty cycle within bounds
    stays within bounds, and the pin is marked running afterwards only if
    it was before or the driver has just taken a [start] for it. *)
Definition ppin_effect (p : PWMPin.t) (h : Hal) (p' : PWMPin.t) (h' : Hal) : Prop :=
  PWMPin.pin_number p' = PWMPin.pin_number p
  /\ (duty_ok p -> duty_ok p')
  /\ exists l : list HalCall,
       hal_log h' = hal_log h ++ l
       /\ forallb is_method_call l = true
       /\ (PWMPin._started p' = true ->
           PWMPin._started p = true
           \/ existsb (starts (PWMPin.pin_number p)) l = true).

(** One call of a program, seen from the world: what [perform] can do. *)
Inductive transition (w : World) : World -> Prop :=
  | t_same : transition w w
  | t_driver (h' : Hal) (l : list HalCall) :
      hal_log h' = hal_log (hal w) ++ l ->
      transition w {| hal := h'; dpins := dpins w; ppins := ppins w |}
  | t_new_dpin (d : DigitalPin.t) (h' : Hal) (l : list HalCall) :
      hal_log h' = hal_log (hal w) ++ l ->
      DigitalPin.direction d = OUT \/ DigitalPin.direction d = IN ->
      existsb (sets_up (DigitalPin.pin_number d) (DigitalPin.direction d)) l = true ->
      hal_mode h' = Some BOARD ->
      transition w {| hal := h'; dpins := dpins w ++ [d]; ppins := ppins w |}
  | t_new_ppin (p : PWMPin.t) (h' : Hal) (l : list HalCall) :
      hal_log h' = hal_log (hal w) ++ l ->
      PWMPin._started p = false ->
      PWMPin._duty_cycle p = 0 ->
      hal_mode h' = Some BOARD ->
      transition w {| hal := h'; dpins := dpins w; ppins := ppins w ++ [p] |}
  | t_dpin (i : nat) (d d' : DigitalPin.t) (h' : Hal) :
      dpins w !! i = Some d ->
      dpin_effect d (hal w) d' h' ->
      transition w {| hal := h'; dpins := <[i:=d']> (dpins w); ppins := ppins w |}
  | t_ppin (i : nat) (p p' : PWMPin.t) (h' : Hal) :
      ppins w !! i = Some p ->
      ppin_effect p (hal w) p' h' ->
      transition w {| hal := h'; dpins := dpins w; ppins := <[i:=p']> (ppins w) |}.

(** Whether a call of a program is a method call, not a construction. *)
Definition is_method (c : Call) : bool :=
  match c with
  | NewDigitalPin _ _ _ | NewPWMPin _ _ => false
  | _ => true
  end.

(** The calls [l] the driver took since the program began account for
    the objects of the world: every PWM pin marked running had a [start]
    taken for its pin, and every digital pin has direction [GPIO.OUT] or
    [GPIO.IN] and had its pin set up in that direction. *)
Definition accounted (l : list HalCall) (w : World) : Prop :=
  (forall (i : nat) (p : PWMPin.t),
     ppins w !! i = Some p -> PWMPin._started p = true ->
     existsb (starts (PWMPin.pin_number p)) l = true)
  /\ (forall (i : nat) (d : DigitalPin.t),
      dpins w !! i = Some d ->
      (DigitalPin.direction d = OUT \/ DigitalPin.direction d = IN)
      /\ existsb (sets_up (DigitalPin.pin_number d) (DigitalPin.direction d)) l
         = true).

Example digital_out_default :
  DigitalPin.new 18 OUT None (mock_hal None)
  = (Returned {| DigitalPin.pin_number := 18; DigitalPin.direction := OUT;
                 DigitalPin._current_value := Some LOW |},
     logged (Setup 18 OUT None) (logged (SetMode BOARD) (mock_hal None))).
Proof. reflexivity. Qed.

Example nano_pwm : pwm_capable (get_available_pins "JETSON_ORIN_NANO") = [15; 33].
Proof. reflexivity. Qed.

Example foo_pwm : pwm_capable (get_available_pins "FOO_BOARD") = [].
Proof. reflexivity. Qed.

(** ** Running the monad in proofs *)

Ltac unfold_monad :=
  unfold bind, ret, raise, on_hal, self, assign, getmode, hal_input in *;
  cbn [fst snd] in *.

(** Case analysis on the driver's answer to the next call. *)
Ltac hal_cases :=
  repeat match goal with
    | |- context [hal_call ?c ?h] =>
        unfold hal_call at 1; destruct (hal_faults h (hal_log h) c) eqn:?;
        cbn [fst snd]
    end.

Lemma hal_call_accepted (c : HalCall) (h : Hal) :
  accepts h c -> hal_call c h = (Returned tt, logged c h).
Proof. unfold accepts, hal_call. intros ->. reflexivity. Qed.

Lemma hal_call_rejected (c : HalCall) (h : Hal) :
  hal_faults h (hal_log h) c = true ->
  hal_call c h = (Raised (HardwareFault c), h).
Proof. unfold hal_call. intros ->. reflexivity. Qed.

Lemma in_range_spec (dc : Z) : PWMPin.in_range dc = false <-> dc < 0 \/ 100 < dc.
Proof. unfold PWMPin.in_range. rewrite andb_false_iff, !Z.leb_gt. tauto. Qed.

(** ** Duty-cycle validation *)

(** C1. A duty cycle below 0 or above 100 makes both [start] and
    [change_duty_cycle] raise the duty-cycle [ValueError], and the object
    (so [_started] and [_duty_cycle]) and the driver are exactly as before
    the call. *)
Theorem duty_cycle_out_of_range_rejected (p : PWMPin.t) (h : Hal) (dc : Z) :
  dc < 0 \/ 100 < dc ->
  PWMPin.start dc (p, h) = (Raised PWMPin.bad_duty_cycle, (p, h))
  /\ PWMPin.change_duty_cycle dc (p, h) = (Raised PWMPin.bad_duty_cycle, (p, h)).
Proof.
  intros Hdc. apply in_range_spec in Hdc.
  unfold PWMPin.start, PWMPin.change_duty_cycle. rewrite Hdc.
  split; reflexivity.
Qed.

(** Scenario B of the specification: running at 50 %, then 150 % is asked. *)
Lemma duty_cycle_out_of_range_rejected_witness :
  let p := {| PWMPin.pin_number := 33; PWMPin.frequency := 1000;
              PWMPin._duty_cycle := 50; PWMPin._started := true |} in
  let h := mock_hal (Some BOARD) in
  PWMPin.start 150 (p, h) = (Raised PWMPin.bad_duty_cycle, (p, h))
  /\ PWMPin.change_duty_cycle 150 (p, h) = (Raised PWMPin.bad_duty_cycle, (p, h)).
Proof.
  intros p h. apply (duty_cycle_out_of_range_rejected p h 150). right. lia.
Defined.

(** ** Direction checks of [DigitalPin] *)



(** ** [PWMPin.stop] *)

Lemma stop_stopped (p : PWMPin.t) (h : Hal) :
  PWMPin._started p = false -> PWMPin.stop (p, h) = (Returned tt, (p, h)).
Proof. unfold PWMPin.stop. unfold_monad. intros ->. reflexivity. Qed.

Lemma stop_running (p : PWMPin.t) (h : Hal) :
  PWMPin._started p = true ->
  PWMPin.stop (p, h)
  = if hal_faults h (hal_log h) (PwmStop (PWMPin.pin_number p))
    then (Raised (HardwareFault (PwmStop (PWMPin.pin_number p))), (p, h))
    else (Returned tt, (PWMPin.with_started false p,
                        logged (PwmStop (PWMPin.pin_number p)) h)).
Proof.
  unfold PWMPin.stop. unfold_monad. intros ->. cbn [fst snd].
  hal_cases; reflexivity.
Qed.

(** C8. [stop] on a stopped pin returns without touching the object or the
    driver; on a running pin it sends [stop] to the PWM channel and clears
    [_started]; and [stop] followed by [stop] is [stop]. *)
Theorem pwm_stop_idempotent (p : PWMPin.t) (h : Hal) :
  (PWMPin._started p = false -> PWMPin.stop (p, h) = (Returned tt, (p, h)))
  /\ (PWMPin._started p = true ->
      accepts h (PwmStop (PWMPin.pin_number p)) ->
      PWMPin.stop (p, h)
      = (Returned tt, (PWMPin.with_started false p,
                       logged (PwmStop (PWMPin.pin_number p)) h)))
  /\ (PWMPin.stop ;; PWMPin.stop) (p, h) = PWMPin.stop (p, h).
Proof.
  repeat split.
  - apply stop_stopped.
  - intros Hs Hacc. rewrite (stop_running _ _ Hs). unfold accepts in Hacc.
    rewrite Hacc. reflexivity.
  - unfold bind. destruct (PWMPin._started p) eqn:Hs.
    + rewrite (stop_running _ _ Hs).
      destruct (hal_faults h _ _); [reflexivity|].
      apply stop_stopped. reflexivity.
    + rewrite (stop_stopped _ _ Hs). apply stop_stopped, Hs.
Qed.

Lemma pwm_stop_idempotent_witness :
  let stopped := {| PWMPin.pin_number := 33; PWMPin.frequency := 1000;
                    PWMPin._duty_cycle := 0; PWMPin._started := false |} in
  let running := {| PWMPin.pin_number := 33; PWMPin.frequency := 1000;
                    PWMPin._duty_cycle := 50; PWMPin._started := true |} in
  let h := mock_hal (Some BOARD) in
  PWMPin.stop (stopped, h) = (Returned tt, (stopped, h))
  /\ PWMPin.stop (running, h)
     = (Returned tt, (PWMPin.with_started false running, logged (PwmStop 33) h)).
Proof.
  intros stopped running h. split.
  - apply (proj1 (pwm_stop_idempotent stopped h)). reflexivity.
  - apply (proj1 (proj2 (pwm_stop_idempotent running h))); reflexivity.
Defined.

(** ** [PWMPin.change_frequency] *)

(** C3, as the specification has it, fails: a stopped pin takes the
    frequency -5 without any error. *)
Lemma change_frequency_accepts_negative :
  let p := {| PWMPin.pin_number := 33; PWMPin.frequency := 1000;
              PWMPin._duty_cycle := 0; PWMPin._started := false |} in
  let h := mock_hal (Some BOARD) in
  PWMPin.change_frequency (-5) (p, h)
  = (Returned tt, (PWMPin.with_frequency (-5) p, h)).
Proof. reflexivity. Qed.

(** C3, amended.  [change_frequency] has no range check: for every
    frequency, positive or not, it stores the frequency first and never
    raises a [ValueError].  On a stopped pin that is all it does; on a
    running pin it sends the one call [ChangeFrequency] to the PWM channel
    (no [stop], no [start]), and what it returns or raises is what the
    driver answers to that call. *)
Theorem change_frequency_unchecked (p : PWMPin.t) (h : Hal) (freq : Z) :
  let call := PwmChangeFrequency (PWMPin.pin_number p) freq in
  fst (snd (PWMPin.change_frequency freq (p, h))) = PWMPin.with_frequency freq p
  /\ (forall msg, fst (PWMPin.change_frequency freq (p, h)) <> Raised (ValueError msg))
  /\ (PWMPin._started p = false ->
      PWMPin.change_frequency freq (p, h)
      = (Returned tt, (PWMPin.with_frequency freq p, h)))
  /\ (PWMPin._started p = true ->
      PWMPin.change_frequency freq (p, h)
      = if hal_faults h (hal_log h) call
        then (Raised (HardwareFault call), (PWMPin.with_frequency freq p, h))
        else (Returned tt, (PWMPin.with_frequency freq p, logged call h))).
Proof.
  intros call. subst call.
  unfold PWMPin.change_frequency. unfold_monad.
  destruct (PWMPin._started p) eqn:Hs; cbn [PWMPin.with_frequency PWMPin._started];
    rewrite ?Hs; cbn [fst snd PWMPin.pin_number].
  - change (PWMPin.pin_number (PWMPin.with_frequency freq p))
      with (PWMPin.pin_number p).
    unfold hal_call.
    destruct (hal_faults h (hal_log h) _); repeat split; try discriminate.
  - repeat split; try discriminate.
Qed.

Lemma change_frequency_unchecked_witness :
  let stopped := {| PWMPin.pin_number := 33; PWMPin.frequency := 1000;
                    PWMPin._duty_cycle := 0; PWMPin._started := false |} in
  let running := {| PWMPin.pin_number := 33; PWMPin.frequency := 1000;
                    PWMPin._duty_cycle := 25; PWMPin._started := true |} in
  let h := mock_hal (Some BOARD) in
  PWMPin.change_frequency 0 (stopped, h)
  = (Returned tt, (PWMPin.with_frequency 0 stopped, h))
  /\ PWMPin.change_frequency 2000 (running, h)
     = (Returned tt, (PWMPin.with_frequency 2000 running,
                      logged (PwmChangeFrequency 33 2000) h)).
Proof.
  intros stopped running h. split.
  - apply (proj1 (proj2 (proj2 (change_frequency_unchecked stopped h 0)))).
    reflexivity.
  - apply (proj2 (proj2 (proj2 (change_frequency_unchecked running h 2000)))).
    reflexivity.
Defined.

(** ** Acquiring a [DigitalPin] *)

Lemma ensure_board_mode_cases (h : Hal) :
  ensure_board_mode h
  = match hal_mode h with
    | None => hal_call (SetMode BOARD) h
    | Some m => if decide (m = BOARD) then (Returned tt, h)
                else (Raised mode_conflict, h)
    end.
Proof.
  unfold ensure_board_mode. unfold_monad.
  destruct (hal_mode h) as [m|] eqn:Hm; [|reflexivity].
  rewrite Hm. destruct (decide (Some m <> Some BOARD)) as [Hne|Heq];
    destruct (decide (m = BOARD)) as [->|Hm']; try reflexivity.
  - done.
  - destruct Hm'. apply dec_stable in Heq. congruence.
Qed.

Lemma new_output (pin : Z) (v : option Level) (h h1 : Hal) :
  ensure_board_mode h = (Returned tt, h1) ->
  accepts h1 (Setup pin OUT v) ->
  DigitalPin.new pin OUT v h
  = (Returned {| DigitalPin.pin_number := pin; DigitalPin.direction := OUT;
                 DigitalPin._current_value :=
                   Some (match v with Some l => l | None => LOW end) |},
     logged (Setup pin OUT v) h1).
Proof.
  intros Hmode Hacc. unfold DigitalPin.new, DigitalPin.__init__. unfold_monad.
  rewrite Hmode. cbn [fst snd].
  destruct (decide (OUT = OUT)); [|done]. cbn [fst snd].
  rewrite (hal_call_accepted _ _ Hacc). reflexivity.
Qed.

Lemma new_input (pin : Z) (v : option Level) (h h1 : Hal) :
  ensure_board_mode h = (Returned tt, h1) ->
  accepts h1 (Setup pin IN None) ->
  DigitalPin.new pin IN v h
  = (Returned {| DigitalPin.pin_number := pin; DigitalPin.direction := IN;
                 DigitalPin._current_value := None |},
     logged (Setup pin IN None) h1).
Proof.
  intros Hmode Hacc. unfold DigitalPin.new, DigitalPin.__init__. unfold_monad.
  rewrite Hmode. cbn [fst snd].
  destruct (decide (IN = OUT)); [done|].
  destruct (decide (IN = IN)); [|done]. cbn [fst snd].
  rewrite (hal_call_accepted _ _ Hacc). reflexivity.
Qed.

(** C6. [DigitalPin(18, GPIO.OUT)], with no initial value and no mode set
    yet: the object records low as its last known value, but the line was
    set up with [initial=None]; the driver received [setmode] and that
    [setup], and no call that carries the level low. *)
Theorem acquire_default_sends_no_level :
  let r := DigitalPin.new 18 OUT None (mock_hal None) in
  fst r = Returned {| DigitalPin.pin_number := 18; DigitalPin.direction := OUT;
                      DigitalPin._current_value := Some LOW |}
  /\ hal_log (snd r) = [SetMode BOARD; Setup 18 OUT None]
  /\ existsb (drives 18 LOW) (hal_log (snd r)) = false.
Proof. repeat split; reflexivity. Qed.

(** Once the numbering mode is settled, acquiring an output pin sets the
    line up as an output, handing the caller's [initial_value] to the
    driver as it is, and records that value, or low when there was none;
    acquiring an input pin sets the line up with no initial level whatever
    [initial_value] is, and leaves the last known value unset. *)
Lemma acquire_records_initial_value
  (pin : Z) (initial_value : option Level) (h h1 : Hal) :
  ensure_board_mode h = (Returned tt, h1) ->
  (accepts h1 (Setup pin OUT initial_value) ->
     DigitalPin.new pin OUT initial_value h
     = (Returned {| DigitalPin.pin_number := pin; DigitalPin.direction := OUT;
                    DigitalPin._current_value :=
                      Some (match initial_value with
                            | Some l => l
                            | None => LOW
                            end) |},
        logged (Setup pin OUT initial_value) h1))
  /\ (accepts h1 (Setup pin IN None) ->
      DigitalPin.new pin IN initial_value h
      = (Returned {| DigitalPin.pin_number := pin; DigitalPin.direction := IN;
                     DigitalPin._current_value := None |},
         logged (Setup pin IN None) h1)).
Proof.
  intros Hmode. split; intros Hacc.
  - apply new_output; assumption.
  - apply new_input; assumption.
Qed.

(** The sibling constructor asks for low in so many words:
    [PWMPin(33, 1000)] sets the line up with [initial=GPIO.LOW]. *)
Example pwm_acquire_sends_low :
  existsb (drives 33 LOW) (hal_log (snd (PWMPin.new 33 1000 (mock_hal None))))
  = true.
Proof. reflexivity. Qed.

(** C10. With a direction that is neither [GPIO.IN] nor [GPIO.OUT],
    [__init__] raises; the only call the driver may have received is the
    [setmode] of the first construction, never a [setup]; [_current_value]
    is still unassigned; and no object reaches the caller.  Unless the
    driver itself refused [setmode], what is raised is a [ValueError]: the
    one for the direction when the mode was unset or BOARD. *)
Theorem invalid_direction_rejected
  (pin dir : Z) (initial_value : option Level) (h : Hal) :
  dir <> OUT -> dir <> IN ->
  exists (e : exn) (o : DigitalPin.attrs) (h' : Hal),
    DigitalPin.__init__ pin dir initial_value (DigitalPin.blank, h)
    = (Raised e, (o, h'))
    /\ DigitalPin.new pin dir initial_value h = (Raised e, h')
    /\ DigitalPin.a_current_value o = None
    /\ (hal_log h' = hal_log h \/ hal_log h' = hal_log h ++ [SetMode BOARD])
    /\ existsb is_setup (drop (length (hal_log h)) (hal_log h')) = false
    /\ (accepts h (SetMode BOARD) ->
        (exists msg, e = ValueError msg)
        /\ (hal_mode h = None \/ hal_mode h = Some BOARD ->
            e = DigitalPin.bad_direction)).
Proof.
  intros Hout Hin.
  unfold DigitalPin.new, DigitalPin.__init__. unfold_monad.
  rewrite ensure_board_mode_cases.
  destruct (hal_mode h) as [m|] eqn:Hm.
  - destruct (decide (m = BOARD)) as [->|Hne]; cbn [fst snd].
    + destruct (decide (dir = OUT)); [done|]. destruct (decide (dir = IN)); [done|].
      eexists _, _, _. do 3 (split; [reflexivity|]).
      split; [by left|]. split; [by rewrite drop_all|].
      intros _. split; [by eexists|done].
    + eexists _, _, _. do 3 (split; [reflexivity|]).
      split; [by left|]. split; [by rewrite drop_all|].
      intros _. split; [by eexists|]. intros [?|?]; congruence.
  - unfold hal_call. destruct (hal_faults h (hal_log h) (SetMode BOARD)) eqn:Hf;
      cbn [fst snd].
    + eexists _, _, _. do 3 (split; [reflexivity|]).
      split; [by left|]. split; [by rewrite drop_all|].
      unfold accepts. congruence.
    + destruct (decide (dir = OUT)); [done|]. destruct (decide (dir = IN)); [done|].
      eexists _, _, _. do 3 (split; [reflexivity|]).
      split; [by right|].
      split; [cbn [logged hal_log]; by rewrite drop_app_length|].
      intros _. split; [by eexists|done].
Qed.

Lemma invalid_direction_rejected_witness :
  fst (DigitalPin.new 18 7 (Some HIGH) (mock_hal None))
  = Raised DigitalPin.bad_direction.
Proof.
  destruct (invalid_direction_rejected 18 7 (Some HIGH) (mock_hal None))
    as (e & o & h' & _ & Hnew & _ & _ & _ & He);
    [unfold OUT; lia | unfold IN; lia |].
  rewrite Hnew. cbn [fst]. f_equal.
  apply He; [reflexivity | left; reflexivity].
Defined.

(** ** Releasing a [DigitalPin] *)

(** C7, as the specification has it, fails (scenario E, on the driver of
    the test suite): pin 15 is acquired as an output and cleaned up, and
    [set_high] on it then returns and records high. *)
Lemma write_after_cleanup_returns :
  let w := run [NewDigitalPin 15 OUT None; DCleanup 0] (boot (mock_hal None)) in
  fst (perform (DSetHigh 0) w) = Returned tt
  /\ dpins (snd (perform (DSetHigh 0) w)) !! 0%nat
     = Some {| DigitalPin.pin_number := 15; DigitalPin.direction := OUT;
               DigitalPin._current_value := Some HIGH |}.
Proof. split; reflexivity. Qed.

(** C7, amended.  [cleanup] only passes [GPIO.cleanup(pin)] to the driver:
    the object is left as it was, with nothing that marks it released.  A
    later [set_high] on an output pin therefore goes to the driver like any
    other: it records high when the driver takes the write, and raises the
    driver's own error, leaving the object as it was, when it does not. *)
Theorem cleanup_leaves_pin_usable (d : DigitalPin.t) (h : Hal) :
  let released := logged (Cleanup (DigitalPin.pin_number d)) h in
  let write := Output (DigitalPin.pin_number d) HIGH in
  fst (snd (DigitalPin.cleanup (d, h))) = d
  /\ (DigitalPin.direction d = OUT ->
      accepts h (Cleanup (DigitalPin.pin_number d)) ->
      DigitalPin.cleanup (d, h) = (Returned tt, (d, released))
      /\ DigitalPin.set_high (d, released)
         = if hal_faults released (hal_log released) write
           then (Raised (HardwareFault write), (d, released))
           else (Returned tt, (DigitalPin.with_value (Some HIGH) d,
                               logged write released))).
Proof.
  intros released write. subst released write.
  unfold DigitalPin.cleanup, DigitalPin.set_high. unfold_monad. split.
  - destruct (hal_call _ h). reflexivity.
  - intros Hdir Hacc. rewrite (hal_call_accepted _ _ Hacc). split; [reflexivity|].
    destruct (decide (DigitalPin.direction d <> OUT)); [done|]. cbn [fst snd].
    unfold hal_call. destruct (hal_faults _ _ _); reflexivity.
Qed.

Lemma cleanup_leaves_pin_usable_witness :
  let d := {| DigitalPin.pin_number := 15; DigitalPin.direction := OUT;
              DigitalPin._current_value := Some LOW |} in
  let h := mock_hal (Some BOARD) in
  DigitalPin.cleanup (d, h) = (Returned tt, (d, logged (Cleanup 15) h))
  /\ DigitalPin.set_high (d, logged (Cleanup 15) h)
     = (Returned tt, (DigitalPin.with_value (Some HIGH) d,
                      logged (Output 15 HIGH) (logged (Cleanup 15) h))).
Proof.
  intros d h.
  apply (proj2 (cleanup_leaves_pin_usable d h)); reflexivity.
Defined.

(** ** The board table *)

Lemma board_pins_unknown (model : string) :
  model <> "JETSON_ORIN_NANO" -> model <> "JETSON_ORIN_NX" ->
  model <> "JETSON_ORIN" ->
  board_pins !! model = None.
Proof.
  intros H1 H2 H3. unfold board_pins.
  rewrite !lookup_insert_ne by congruence. apply lookup_empty.
Qed.


(** ** The numbering mode *)

Section Sticky.
Context {S : Type} (mode : S -> option Z).

Lemma sticky_ret {A} (a : A) : sticky mode (ret a).
Proof. intros s z Hs. exact Hs. Qed.

Lemma sticky_raise {A} (e : exn) : sticky mode (raise (A := A) e).
Proof. intros s z Hs. exact Hs. Qed.

Lemma sticky_bind {A B} (m : M S A) (k : A -> M S B) :
  sticky mode m -> (forall a, sticky mode (k a)) -> sticky mode (bind m k).
Proof.
  intros Hm Hk s z Hs. unfold bind. specialize (Hm s z Hs).
  destruct (m s) as [[a|e] s']; cbn [snd] in *; [|exact Hm].
  apply Hk, Hm.
Qed.
End Sticky.

Lemma sticky_hal_call (c : HalCall) :
  (forall m, c <> SetMode m) -> sticky hal_mode (hal_call c).
Proof.
  intros Hc h z Hz. unfold hal_call.
  destruct (hal_faults h (hal_log h) c); cbn [snd]; [exact Hz|].
  destruct c; cbn [logged hal_mode]; try exact Hz. by destruct (Hc mode).
Qed.

Lemma sticky_ensure_board_mode : sticky hal_mode ensure_board_mode.
Proof.
  intros h z Hz. rewrite ensure_board_mode_cases, Hz.
  destruct (decide (z = BOARD)); exact Hz.
Qed.

Lemma sticky_hal_input (pin : Z) : sticky hal_mode (hal_input pin).
Proof.
  intros h z Hz. unfold hal_input.
  pose proof (sticky_hal_call (Input pin) ltac:(discriminate) h z Hz) as Hc.
  destruct (hal_call (Input pin) h) as [[[]|e] h']; exact Hc.
Qed.

Section StickyObject.
Context {O : Type}.
Let mode (s : O * Hal) : option Z := hal_mode (snd s).

Lemma sticky_on_hal {A} (m : M Hal A) :
  sticky hal_mode m -> sticky mode (on_hal m).
Proof.
  intros Hm [o h] z Hz. unfold on_hal, mode in *. cbn [fst snd] in *.
  specialize (Hm h z Hz). destruct (m h). exact Hm.
Qed.

Lemma sticky_self : sticky mode (self (O := O)).
Proof. intros s z Hs. exact Hs. Qed.

Lemma sticky_assign (f : O -> O) : sticky mode (assign f).
Proof. intros s z Hs. exact Hs. Qed.
End StickyObject.

Create HintDb sticky.

#[local] Hint Resolve sticky_ret sticky_raise sticky_hal_call
  sticky_ensure_board_mode sticky_hal_input sticky_on_hal sticky_self
  sticky_assign : sticky.

Ltac sticky_step :=
  first
    [ solve [eauto with sticky]
    | apply sticky_hal_call; discriminate
    | apply sticky_on_hal, sticky_hal_call; discriminate
    | match goal with |- sticky _ (if ?b then _ else _) => destruct b end
    | match goal with |- sticky _ (match ?x with _ => _ end) => destruct x end
    | apply sticky_bind; [|intros ?] ].

Ltac sticky_auto := repeat sticky_step.

Lemma sticky_digital_init (pin dir : Z) (v : option Level) :
  sticky (fun s : DigitalPin.attrs * Hal => hal_mode (snd s))
         (DigitalPin.__init__ pin dir v).
Proof. unfold DigitalPin.__init__. sticky_auto. Qed.

Lemma sticky_digital_new (pin dir : Z) (v : option Level) :
  sticky hal_mode (DigitalPin.new pin dir v).
Proof.
  intros h z Hz. unfold DigitalPin.new.
  pose proof (sticky_digital_init pin dir v (DigitalPin.blank, h) z Hz) as Hi.
  destruct (DigitalPin.__init__ pin dir v (DigitalPin.blank, h)) as [[[]|e] [o h']];
    cbn [snd] in *; [destruct (DigitalPin.seal o)|]; exact Hi.
Qed.

Lemma sticky_digital_methods :
  let mode (s : DigitalPin.t * Hal) := hal_mode (snd s) in
  sticky mode DigitalPin.set_high /\ sticky mode DigitalPin.set_low
  /\ sticky mode DigitalPin.toggle /\ sticky mode DigitalPin.read
  /\ sticky mode DigitalPin.cleanup.
Proof.
  intros mode. subst mode.
  assert (Hh : sticky (fun s : DigitalPin.t * Hal => hal_mode (snd s))
                      DigitalPin.set_high)
    by (unfold DigitalPin.set_high; sticky_auto).
  assert (Hl : sticky (fun s : DigitalPin.t * Hal => hal_mode (snd s))
                      DigitalPin.set_low)
    by (unfold DigitalPin.set_low; sticky_auto).
  repeat split; try assumption.
  - unfold DigitalPin.toggle. sticky_auto; assumption.
  - unfold DigitalPin.read. sticky_auto.
  - unfold DigitalPin.cleanup. sticky_auto.
Qed.

Lemma sticky_pwm_new (pin freq : Z) : sticky hal_mode (PWMPin.new pin freq).
Proof.
  unfold PWMPin.new. sticky_auto.
Qed.

Lemma sticky_pwm_methods (x : Z) :
  let mode (s : PWMPin.t * Hal) := hal_mode (snd s) in
  sticky mode (PWMPin.start x) /\ sticky mode PWMPin.stop
  /\ sticky mode (PWMPin.change_frequency x)
  /\ sticky mode (PWMPin.change_duty_cycle x) /\ sticky mode PWMPin.cleanup.
Proof.
  intros mode. subst mode.
  assert (Hs : sticky (fun s : PWMPin.t * Hal => hal_mode (snd s)) PWMPin.stop)
    by (unfold PWMPin.stop; sticky_auto).
  repeat split; try assumption.
  - unfold PWMPin.start. sticky_auto.
  - unfold PWMPin.change_frequency. sticky_auto.
  - unfold PWMPin.change_duty_cycle. sticky_auto.
  - unfold PWMPin.cleanup. sticky_auto; assumption.
Qed.

Lemma sticky_on_dpin {A} (i : nat) (m : M (DigitalPin.t * Hal) A) :
  sticky (fun s : DigitalPin.t * Hal => hal_mode (snd s)) m ->
  sticky (fun w => hal_mode (hal w)) (on_dpin i m).
Proof.
  intros Hm w z Hz. unfold on_dpin.
  destruct (dpins w !! i) as [d|]; [|exact Hz].
  specialize (Hm (d, hal w) z Hz).
  destruct (m (d, hal w)) as [r [d' h']]. exact Hm.
Qed.

Lemma sticky_on_ppin {A} (i : nat) (m : M (PWMPin.t * Hal) A) :
  sticky (fun s : PWMPin.t * Hal => hal_mode (snd s)) m ->
  sticky (fun w => hal_mode (hal w)) (on_ppin i m).
Proof.
  intros Hm w z Hz. unfold on_ppin.
  destruct (ppins w !! i) as [p|]; [|exact Hz].
  specialize (Hm (p, hal w) z Hz).
  destruct (m (p, hal w)) as [r [p' h']]. exact Hm.
Qed.

Lemma sticky_perform (c : Call) : sticky (fun w => hal_mode (hal w)) (perform c).
Proof.
  destruct (sticky_digital_methods) as (Hh & Hl & Ht & Hr & Hc).
  destruct c as [pin dir v| | | | | |pin freq|i x| |i x|i x| ]; cbn [perform];
    try (apply sticky_on_dpin; assumption);
    try (apply sticky_on_ppin; apply (sticky_pwm_methods 0));
    try (apply sticky_on_ppin; apply (sticky_pwm_methods x)).
  - intros w z Hz. pose proof (sticky_digital_new pin dir v (hal w) z Hz) as Hn.
    destruct (DigitalPin.new pin dir v (hal w)) as [[d|e] h']; exact Hn.
  - intros w z Hz. pose proof (sticky_pwm_new pin freq (hal w) z Hz) as Hn.
    destruct (PWMPin.new pin freq (hal w)) as [[p|e] h']; exact Hn.
Qed.

Lemma run_keeps_mode (cs : list Call) (w : World) (z : Z) :
  hal_mode (hal w) = Some z -> hal_mode (hal (run cs w)) = Some z.
Proof.
  revert w. induction cs as [|c cs IH]; intros w Hz; cbn [run]; [exact Hz|].
  apply IH, sticky_perform, Hz.
Qed.

Lemma new_pwm (pin freq : Z) (h h1 : Hal) :
  ensure_board_mode h = (Returned tt, h1) ->
  accepts h1 (Setup pin OUT (Some LOW)) ->
  accepts (logged (Setup pin OUT (Some LOW)) h1) (PwmNew pin freq) ->
  PWMPin.new pin freq h
  = (Returned {| PWMPin.pin_number := pin; PWMPin.frequency := freq;
                 PWMPin._duty_cycle := 0; PWMPin._started := false |},
     logged (PwmNew pin freq) (logged (Setup pin OUT (Some LOW)) h1)).
Proof.
  intros Hmode Hs Hp. unfold PWMPin.new, bind. rewrite Hmode.
  rewrite (hal_call_accepted _ _ Hs), (hal_call_accepted _ _ Hp). reflexivity.
Qed.

Lemma mode_conflict_raised (h : Hal) (m : Z) :
  hal_mode h = Some m -> m <> BOARD ->
  ensure_board_mode h = (Raised mode_conflict, h).
Proof.
  intros Hm Hne. rewrite ensure_board_mode_cases, Hm.
  destruct (decide (m = BOARD)); [done|reflexivity].
Qed.

Lemma mode_first_set (h : Hal) :
  hal_mode h = None -> accepts h (SetMode BOARD) ->
  ensure_board_mode h = (Returned tt, logged (SetMode BOARD) h).
Proof.
  intros Hm Hacc. rewrite ensure_board_mode_cases, Hm.
  apply hal_call_accepted, Hacc.
Qed.

Lemma mode_board_kept (h : Hal) :
  hal_mode h = Some BOARD -> ensure_board_mode h = (Returned tt, h).
Proof.
  intros Hm. rewrite ensure_board_mode_cases, Hm.
  destruct (decide (BOARD = BOARD)); [reflexivity|done].
Qed.

(** What is left of a constructor after the mode block, whatever it does,
    keeps the mode the block settled. *)
Lemma digital_new_after_mode (pin dir : Z) (v : option Level) (h h1 : Hal) (z : Z) :
  ensure_board_mode h = (Returned tt, h1) -> hal_mode h1 = Some z ->
  hal_mode (snd (DigitalPin.new pin dir v h)) = Some z.
Proof.
  intros Hmode Hz. unfold DigitalPin.new, DigitalPin.__init__. unfold_monad.
  rewrite Hmode. cbn [fst snd].
  destruct (decide (dir = OUT)); [|destruct (decide (dir = IN))]; cbn [fst snd];
    unfold hal_call; try destruct (hal_faults h1 _ _); cbn; exact Hz.
Qed.

Lemma pwm_new_after_mode (pin freq : Z) (h h1 : Hal) (z : Z) :
  ensure_board_mode h = (Returned tt, h1) -> hal_mode h1 = Some z ->
  hal_mode (snd (PWMPin.new pin freq h)) = Some z.
Proof.
  intros Hmode Hz. unfold PWMPin.new, bind. rewrite Hmode.
  unfold hal_call at 1. destruct (hal_faults h1 _ _); [exact Hz|].
  unfold hal_call. destruct (hal_faults _ _ _); cbn; exact Hz.
Qed.

(** C2. The numbering mode is set once.  (1) With no mode set, either
    constructor sets BOARD, provided the driver takes [setmode].  (2) With
    another mode set, either constructor raises the mode [ValueError] and
    does nothing else.  (3) With BOARD set, the mode block is a no-op, and
    the constructors return their object when the driver takes their
    calls.  (4) Whatever a program does with the two classes, a mode that
    is set stays as it is. *)
Theorem numbering_mode_set_once
  (h : Hal) (pin freq : Z) (initial_value : option Level) :
  (hal_mode h = None -> accepts h (SetMode BOARD) ->
     (forall dir,
        hal_mode (snd (DigitalPin.new pin dir initial_value h)) = Some BOARD)
     /\ hal_mode (snd (PWMPin.new pin freq h)) = Some BOARD)
  /\ (forall m, hal_mode h = Some m -> m <> BOARD ->
      (forall dir,
         DigitalPin.new pin dir initial_value h = (Raised mode_conflict, h))
      /\ PWMPin.new pin freq h = (Raised mode_conflict, h))
  /\ (hal_mode h = Some BOARD ->
      ensure_board_mode h = (Returned tt, h)
      /\ (accepts h (Setup pin OUT initial_value) ->
          DigitalPin.new pin OUT initial_value h
          = (Returned {| DigitalPin.pin_number := pin;
                         DigitalPin.direction := OUT;
                         DigitalPin._current_value :=
                           Some (match initial_value with
                                 | Some l => l
                                 | None => LOW
                                 end) |},
             logged (Setup pin OUT initial_value) h))
      /\ (accepts h (Setup pin IN None) ->
          DigitalPin.new pin IN initial_value h
          = (Returned {| DigitalPin.pin_number := pin;
                         DigitalPin.direction := IN;
                         DigitalPin._current_value := None |},
             logged (Setup pin IN None) h))
      /\ (accepts h (Setup pin OUT (Some LOW)) ->
          accepts (logged (Setup pin OUT (Some LOW)) h) (PwmNew pin freq) ->
          PWMPin.new pin freq h
          = (Returned {| PWMPin.pin_number := pin; PWMPin.frequency := freq;
                         PWMPin._duty_cycle := 0; PWMPin._started := false |},
             logged (PwmNew pin freq) (logged (Setup pin OUT (Some LOW)) h))))
  /\ (forall (cs : list Call) (w : World) (m : Z),
      hal_mode (hal w) = Some m -> hal_mode (hal (run cs w)) = Some m).
Proof.
  split; [|split; [|split]].
  - intros Hm Hacc. pose proof (mode_first_set h Hm Hacc) as He. split.
    + intros dir. by apply (digital_new_after_mode _ _ _ _ _ _ He).
    + by apply (pwm_new_after_mode _ _ _ _ _ He).
  - intros m Hm Hne. pose proof (mode_conflict_raised h m Hm Hne) as He. split.
    + intros dir. unfold DigitalPin.new, DigitalPin.__init__. unfold_monad.
      rewrite He. reflexivity.
    + unfold PWMPin.new, bind. rewrite He. reflexivity.
  - intros Hm. pose proof (mode_board_kept h Hm) as He.
    split; [exact He|]. split; [|split].
    + apply new_output, He.
    + apply new_input, He.
    + apply new_pwm, He.
  - apply run_keeps_mode.
Qed.

Lemma numbering_mode_set_once_witness :
  hal_mode (snd (PWMPin.new 33 1000 (mock_hal None))) = Some BOARD
  /\ DigitalPin.new 18 OUT None (mock_hal (Some BCM))
     = (Raised mode_conflict, mock_hal (Some BCM))
  /\ ensure_board_mode (mock_hal (Some BOARD)) = (Returned tt, mock_hal (Some BOARD))
  /\ hal_mode (hal (run [NewDigitalPin 18 OUT None; DToggle 0; NewPWMPin 33 1000;
                         PStart 0 50; PCleanup 0; DCleanup 0]
                        (boot (mock_hal (Some BOARD))))) = Some BOARD.
Proof.
  split; [|split; [|split]].
  - apply (proj1 (numbering_mode_set_once (mock_hal None) 33 1000 None));
      reflexivity.
  - apply (proj1 (proj2 (numbering_mode_set_once (mock_hal (Some BCM)) 18 1000 None))
             BCM); [reflexivity|unfold BCM, BOARD; lia].
  - apply (proj1 (proj2 (proj2
             (numbering_mode_set_once (mock_hal (Some BOARD)) 18 1000 None)))).
    reflexivity.
  - apply (proj2 (proj2 (proj2
             (numbering_mode_set_once (mock_hal (Some BOARD)) 18 1000 None)))).
    reflexivity.
Defined.

(** ** [DigitalPin.toggle] *)

Lemma set_high_output (d : DigitalPin.t) (h : Hal) :
  DigitalPin.direction d = OUT ->
  DigitalPin.set_high (d, h)
  = if hal_faults h (hal_log h) (Output (DigitalPin.pin_number d) HIGH)
    then (Raised (HardwareFault (Output (DigitalPin.pin_number d) HIGH)), (d, h))
    else (Returned tt, (DigitalPin.with_value (Some HIGH) d,
                        logged (Output (DigitalPin.pin_number d) HIGH) h)).
Proof.
  intros Hdir. unfold DigitalPin.set_high. unfold_monad.
  destruct (decide (DigitalPin.direction d <> OUT)); [done|]. cbn [fst snd].
  unfold hal_call. destruct (hal_faults h _ _); reflexivity.
Qed.

Lemma set_low_output (d : DigitalPin.t) (h : Hal) :
  DigitalPin.direction d = OUT ->
  DigitalPin.set_low (d, h)
  = if hal_faults h (hal_log h) (Output (DigitalPin.pin_number d) LOW)
    then (Raised (HardwareFault (Output (DigitalPin.pin_number d) LOW)), (d, h))
    else (Returned tt, (DigitalPin.with_value (Some LOW) d,
                        logged (Output (DigitalPin.pin_number d) LOW) h)).
Proof.
  intros Hdir. unfold DigitalPin.set_low. unfold_monad.
  destruct (decide (DigitalPin.direction d <> OUT)); [done|]. cbn [fst snd].
  unfold hal_call. destruct (hal_faults h _ _); reflexivity.
Qed.

Lemma toggle_output (d : DigitalPin.t) (h : Hal) :
  DigitalPin.direction d = OUT ->
  let v := invert (default LOW (DigitalPin._current_value d)) in
  DigitalPin.toggle (d, h)
  = if hal_faults h (hal_log h) (Output (DigitalPin.pin_number d) v)
    then (Raised (HardwareFault (Output (DigitalPin.pin_number d) v)), (d, h))
    else (Returned tt, (DigitalPin.with_value (Some v) d,
                        logged (Output (DigitalPin.pin_number d) v) h)).
Proof.
  intros Hdir v. subst v.
  unfold DigitalPin.toggle, bind, self. cbn [fst snd].
  destruct (decide (DigitalPin.direction d <> OUT)); [done|].
  destruct (DigitalPin._current_value d) as [[]|].
  - destruct (decide (Some LOW = Some HIGH)) as [Heq|_]; [discriminate Heq|].
    apply set_high_output, Hdir.
  - destruct (decide (Some HIGH = Some HIGH)) as [_|Hne]; [|done].
    apply set_low_output, Hdir.
  - destruct (decide (None = Some HIGH)) as [Heq|_]; [discriminate Heq|].
    apply set_high_output, Hdir.
Qed.

Lemma new_valued (pin dir : Z) (v : option Level) (h h' : Hal) (d : DigitalPin.t) :
  DigitalPin.new pin dir v h = (Returned d, h') -> valued d.
Proof.
  unfold DigitalPin.new, DigitalPin.__init__. unfold_monad.
  destruct (ensure_board_mode h) as [[[]|e] h1]; cbn [fst snd]; [|discriminate].
  destruct (decide (dir = OUT)) as [->|Hout]; cbn [fst snd].
  - unfold hal_call. destruct (hal_faults h1 _ _); cbn; [discriminate|].
    intros [= <- _] _. cbn. eauto.
  - destruct (decide (dir = IN)) as [->|Hin]; cbn [fst snd]; [|discriminate].
    unfold hal_call. destruct (hal_faults h1 _ _); cbn; [discriminate|].
    intros [= <- _] Hd. cbn in Hd. discriminate Hd.
Qed.

Lemma set_high_keeps_valued : keeps_valued DigitalPin.set_high.
Proof.
  intros d h Hd. unfold DigitalPin.set_high. unfold_monad.
  destruct (decide _); [exact Hd|]. cbn [fst snd].
  unfold hal_call. destruct (hal_faults h _ _); cbn [fst snd]; [exact Hd|].
  intros _. cbn. eauto.
Qed.

Lemma set_low_keeps_valued : keeps_valued DigitalPin.set_low.
Proof.
  intros d h Hd. unfold DigitalPin.set_low. unfold_monad.
  destruct (decide _); [exact Hd|]. cbn [fst snd].
  unfold hal_call. destruct (hal_faults h _ _); cbn [fst snd]; [exact Hd|].
  intros _. cbn. eauto.
Qed.

Lemma toggle_keeps_valued : keeps_valued DigitalPin.toggle.
Proof.
  intros d h Hd. unfold DigitalPin.toggle. unfold_monad.
  destruct (decide _); [exact Hd|]. cbn [fst snd].
  destruct (decide _).
  - by apply set_low_keeps_valued.
  - by apply set_high_keeps_valued.
Qed.

Lemma read_keeps_valued : keeps_valued DigitalPin.read.
Proof.
  intros d h Hd. unfold DigitalPin.read, bind, self, on_hal, assign, ret.
  cbn [fst snd].
  destruct (hal_input (DigitalPin.pin_number d) h) as [[v|e] h'];
    cbn [fst snd]; [|exact Hd].
  destruct (decide _) as [Hin|]; cbn [fst snd]; [|exact Hd].
  intros _. cbn. eauto.
Qed.

Lemma cleanup_keeps_valued : keeps_valued DigitalPin.cleanup.
Proof.
  intros d h Hd. unfold DigitalPin.cleanup. unfold_monad.
  destruct (hal_call _ h). exact Hd.
Qed.

Lemma on_dpin_valued {A} (i : nat) (m : M (DigitalPin.t * Hal) A) (w : World) :
  keeps_valued m ->
  Forall valued (dpins w) -> Forall valued (dpins (snd (on_dpin i m w))).
Proof.
  intros Hm Hw. unfold on_dpin.
  destruct (dpins w !! i) as [d|] eqn:Hi; [|exact Hw].
  pose proof (Hm d (hal w)) as Hd.
  destruct (m (d, hal w)) as [r [d' h']]. cbn [fst snd dpins] in *.
  apply Forall_insert; [exact Hw|].
  apply Hd. by eapply Forall_lookup_1.
Qed.

Lemma on_ppin_dpins {A} (i : nat) (m : M (PWMPin.t * Hal) A) (w : World) :
  dpins (snd (on_ppin i m w)) = dpins w.
Proof.
  unfold on_ppin. destruct (ppins w !! i) as [p|]; [|reflexivity].
  by destruct (m (p, hal w)) as [r [p' h']].
Qed.

Lemma perform_valued (c : Call) (w : World) :
  Forall valued (dpins w) -> Forall valued (dpins (snd (perform c w))).
Proof.
  intros Hw. destruct c as [pin dir v| | | | | |pin freq| | | | | ];
    cbn [perform]; rewrite ?on_ppin_dpins; try exact Hw.
  - destruct (DigitalPin.new pin dir v (hal w)) as [[d|e] h'] eqn:Hn;
      cbn [snd dpins]; [|exact Hw].
    apply Forall_app. split; [exact Hw|].
    apply Forall_singleton. by eapply new_valued.
  - apply on_dpin_valued; [apply set_high_keeps_valued | exact Hw].
  - apply on_dpin_valued; [apply set_low_keeps_valued | exact Hw].
  - apply on_dpin_valued; [apply toggle_keeps_valued | exact Hw].
  - apply on_dpin_valued; [apply read_keeps_valued | exact Hw].
  - apply on_dpin_valued; [apply cleanup_keeps_valued | exact Hw].
  - by destruct (PWMPin.new pin freq (hal w)) as [[p|e] h'].
Qed.

Lemma run_valued (cs : list Call) (w : World) :
  Forall valued (dpins w) -> Forall valued (dpins (run cs w)).
Proof.
  revert w. induction cs as [|c cs IH]; intros w Hw; cbn [run]; [exact Hw|].
  by apply IH, perform_valued.
Qed.

(** C4. On an output pin, one [toggle] writes and records the inverse of
    the last known value, an unset value counting as low.  On every output
    pin a program can hold (made by the constructor, then used through the
    methods in any order), the last known value is set, and two toggles in
    a row leave the object, hence the last known value, as it was before
    the first.  Both under the proviso that the driver takes the writes. *)
Theorem toggle_twice_restores :
  (forall (d : DigitalPin.t) (h : Hal),
     DigitalPin.direction d = OUT ->
     let v := invert (default LOW (DigitalPin._current_value d)) in
     accepts h (Output (DigitalPin.pin_number d) v) ->
     DigitalPin.toggle (d, h)
     = (Returned tt, (DigitalPin.with_value (Some v) d,
                      logged (Output (DigitalPin.pin_number d) v) h)))
  /\ (forall (cs : list Call) (h0 : Hal) (i : nat) (d : DigitalPin.t) (h : Hal),
      dpins (run cs (boot h0)) !! i = Some d ->
      DigitalPin.direction d = OUT ->
      exists v : Level,
        DigitalPin._current_value d = Some v
        /\ let first := Output (DigitalPin.pin_number d) (invert v) in
           let second := Output (DigitalPin.pin_number d) v in
           (accepts h first -> accepts (logged first h) second ->
            (DigitalPin.toggle ;; DigitalPin.toggle) (d, h)
            = (Returned tt, (d, logged second (logged first h))))).
Proof.
  split.
  - intros d h Hdir v Hacc. rewrite (toggle_output d h Hdir).
    fold v. unfold accepts in Hacc. rewrite Hacc. reflexivity.
  - intros cs h0 i d h Hi Hdir.
    assert (Hval : valued d).
    { eapply Forall_lookup_1; [|exact Hi]. apply run_valued. constructor. }
    destruct (Hval Hdir) as [v Hv]. exists v. split; [exact Hv|].
    intros first second Hf Hs. subst first second. unfold bind.
    rewrite (toggle_output d h Hdir), Hv.
    change (default LOW (Some v)) with v.
    unfold accepts in Hf. rewrite Hf. cbv beta iota.
    rewrite (toggle_output (DigitalPin.with_value (Some (invert v)) d) _ Hdir).
    change (DigitalPin.pin_number (DigitalPin.with_value _ d))
      with (DigitalPin.pin_number d).
    change (default LOW (DigitalPin._current_value
                           (DigitalPin.with_value (Some (invert v)) d)))
      with (invert v).
    replace (invert (invert v)) with v by (by destruct v).
    unfold accepts in Hs. rewrite Hs.
    destruct d as [p dir cv]. cbn in Hv. subst cv. reflexivity.
Qed.

Lemma toggle_twice_restores_witness :
  let d := {| DigitalPin.pin_number := 18; DigitalPin.direction := OUT;
              DigitalPin._current_value := None |} in
  let h := mock_hal (Some BOARD) in
  DigitalPin.toggle (d, h)
  = (Returned tt, (DigitalPin.with_value (Some HIGH) d, logged (Output 18 HIGH) h))
  /\ exists v : Level,
      Some LOW = Some v
      /\ (accepts h (Output 18 (invert v)) ->
          accepts (logged (Output 18 (invert v)) h) (Output 18 v) ->
          (DigitalPin.toggle ;; DigitalPin.toggle)
            ({| DigitalPin.pin_number := 18; DigitalPin.direction := OUT;
                DigitalPin._current_value := Some LOW |}, h)
          = (Returned tt,
             ({| DigitalPin.pin_number := 18; DigitalPin.direction := OUT;
                 DigitalPin._current_value := Some LOW |},
              logged (Output 18 v) (logged (Output 18 (invert v)) h)))).
Proof.
  intros d h. split.
  - apply (proj1 toggle_twice_restores d h); reflexivity.
  - apply (proj2 toggle_twice_restores
             [NewDigitalPin 18 OUT (Some LOW)] (mock_hal None) 0%nat
             {| DigitalPin.pin_number := 18; DigitalPin.direction := OUT;
                DigitalPin._current_value := Some LOW |} h);
      reflexivity.
Defined.

(** * Further properties of the two classes *)

(** ** [DigitalPin.read] and [get_value] *)

(** [read] has no direction check.  It asks the driver for the level of
    the pin and returns it; an input pin records it as its last known
    value, so that [get_value] then answers it without a further driver
    call, while a pin of any other direction keeps the value it had.  When
    the driver refuses the read, the error leaves the object as it was. *)
Theorem read_caches_on_input_only (d : DigitalPin.t) (h : Hal) :
  let call := Input (DigitalPin.pin_number d) in
  let v := hal_reads h (hal_log h) (DigitalPin.pin_number d) in
  (accepts h call ->
     DigitalPin.read (d, h)
     = (Returned v,
        (if decide (DigitalPin.direction d = IN)
         then DigitalPin.with_value (Some v) d else d,
         logged call h))
     /\ (DigitalPin.read ;; DigitalPin.get_value) (d, h)
        = (Returned (if decide (DigitalPin.direction d = IN)
                     then Some v else DigitalPin._current_value d),
           (if decide (DigitalPin.direction d = IN)
            then DigitalPin.with_value (Some v) d else d,
            logged call h)))
  /\ (hal_faults h (hal_log h) call = true ->
      DigitalPin.read (d, h) = (Raised (HardwareFault call), (d, h))).
Proof.
  intros call v. subst call v.
  unfold DigitalPin.read, DigitalPin.get_value, bind, self, on_hal, assign, ret,
    hal_input.
  cbn [fst snd]. split.
  - intros Hacc. rewrite (hal_call_accepted _ _ Hacc). cbn [fst snd].
    destruct (decide (DigitalPin.direction d = IN)); split; reflexivity.
  - intros Hf. rewrite (hal_call_rejected _ _ Hf). reflexivity.
Qed.

Lemma read_caches_on_input_only_witness :
  let button := {| DigitalPin.pin_number := 16; DigitalPin.direction := IN;
                   DigitalPin._current_value := None |} in
  let h := {| hal_mode := Some BOARD; hal_log := [Setup 16 IN None];
              hal_faults := fun _ _ => false;
              hal_reads := fun _ _ => HIGH |} in
  DigitalPin.read (button, h)
  = (Returned HIGH, (DigitalPin.with_value (Some HIGH) button, logged (Input 16) h))
  /\ (DigitalPin.read ;; DigitalPin.get_value) (button, h)
     = (Returned (Some HIGH),
        (DigitalPin.with_value (Some HIGH) button, logged (Input 16) h)).
Proof.
  intros button h.
  apply (proj1 (read_caches_on_input_only button h)). reflexivity.
Defined.

(** ** [PWMPin.start] and [change_duty_cycle] within bounds *)

Lemma in_range_true (dc : Z) : PWMPin.in_range dc = true <-> 0 <= dc <= 100.
Proof. unfold PWMPin.in_range. rewrite andb_true_iff, !Z.leb_le. tauto. Qed.

(** [start] with a duty cycle from 0 to 100, both included, stores the duty
    cycle before it calls the driver.  When the driver takes the call the
    pin is running at that duty cycle, whether or not it ran before; when
    the driver refuses, the error leaves the new duty cycle stored and
    [_started] as it was. *)
Theorem start_within_bounds (p : PWMPin.t) (h : Hal) (dc : Z) :
  0 <= dc <= 100 ->
  let call := PwmStart (PWMPin.pin_number p) dc in
  PWMPin.start dc (p, h)
  = if hal_faults h (hal_log h) call
    then (Raised (HardwareFault call), (PWMPin.with_duty_cycle dc p, h))
    else (Returned tt,
          (PWMPin.with_started true (PWMPin.with_duty_cycle dc p),
           logged call h)).
Proof.
  intros Hdc call. subst call. apply in_range_true in Hdc.
  unfold PWMPin.start. rewrite Hdc. cbn [negb].
  unfold bind, assign, self, on_hal, hal_call. cbn [fst snd].
  change (PWMPin.pin_number (PWMPin.with_duty_cycle dc p))
    with (PWMPin.pin_number p).
  destruct (hal_faults h (hal_log h) _); reflexivity.
Qed.

Lemma start_within_bounds_witness :
  let p := {| PWMPin.pin_number := 33; PWMPin.frequency := 1000;
              PWMPin._duty_cycle := 0; PWMPin._started := false |} in
  let h := mock_hal (Some BOARD) in
  PWMPin.start 100 (p, h)
  = (Returned tt,
     ({| PWMPin.pin_number := 33; PWMPin.frequency := 1000;
         PWMPin._duty_cycle := 100; PWMPin._started := true |},
      logged (PwmStart 33 100) h)).
Proof.
  intros p h. apply (start_within_bounds p h 100). lia.
Defined.

(** [change_duty_cycle] with a duty cycle from 0 to 100 stores it.  A
    stopped pin makes no driver call; a running pin sends the one call
    [ChangeDutyCycle], and keeps the new value stored even when the driver
    refuses it.  [_started] is never changed. *)
Theorem change_duty_cycle_within_bounds (p : PWMPin.t) (h : Hal) (dc : Z) :
  0 <= dc <= 100 ->
  let call := PwmChangeDutyCycle (PWMPin.pin_number p) dc in
  PWMPin.change_duty_cycle dc (p, h)
  = if PWMPin._started p then
      if hal_faults h (hal_log h) call
      then (Raised (HardwareFault call), (PWMPin.with_duty_cycle dc p, h))
      else (Returned tt, (PWMPin.with_duty_cycle dc p, logged call h))
    else (Returned tt, (PWMPin.with_duty_cycle dc p, h)).
Proof.
  intros Hdc call. subst call. apply in_range_true in Hdc.
  unfold PWMPin.change_duty_cycle. rewrite Hdc. cbn [negb].
  unfold bind, assign, self, on_hal, hal_call, ret. cbn [fst snd].
  change (PWMPin._started (PWMPin.with_duty_cycle dc p))
    with (PWMPin._started p).
  change (PWMPin.pin_number (PWMPin.with_duty_cycle dc p))
    with (PWMPin.pin_number p).
  destruct (PWMPin._started p); [|reflexivity]. cbn [fst snd].
  destruct (hal_faults h (hal_log h) _); reflexivity.
Qed.

Lemma change_duty_cycle_within_bounds_witness :
  let p := {| PWMPin.pin_number := 33; PWMPin.frequency := 1000;
              PWMPin._duty_cycle := 25; PWMPin._started := true |} in
  let h := mock_hal (Some BOARD) in
  PWMPin.change_duty_cycle 75 (p, h)
  = (Returned tt, (PWMPin.with_duty_cycle 75 p, logged (PwmChangeDutyCycle 33 75) h)).
Proof.
  intros p h. apply (change_duty_cycle_within_bounds p h 75). lia.
Defined.

(** ** [PWMPin.cleanup] *)

(** [cleanup] stops before it releases.  On a running pin it sends [stop]
    to the channel and then [GPIO.cleanup(pin)]; if the driver refuses the
    [stop], the pin is not released and still counts as running.  On a
    stopped pin it only releases.  When it returns, the pin is not marked
    running and the release is the last call the driver took. *)
Theorem pwm_cleanup_stops_first (p : PWMPin.t) (h : Hal) :
  let halt := PwmStop (PWMPin.pin_number p) in
  let free := Cleanup (PWMPin.pin_number p) in
  (PWMPin._started p = true ->
     PWMPin.cleanup (p, h)
     = if hal_faults h (hal_log h) halt
       then (Raised (HardwareFault halt), (p, h))
       else if hal_faults h (hal_log h ++ [halt]) free
            then (Raised (HardwareFault free),
                  (PWMPin.with_started false p, logged halt h))
            else (Returned tt,
                  (PWMPin.with_started false p, logged free (logged halt h))))
  /\ (PWMPin._started p = false ->
      PWMPin.cleanup (p, h)
      = if hal_faults h (hal_log h) free
        then (Raised (HardwareFault free), (p, h))
        else (Returned tt, (p, logged free h)))
  /\ (fst (PWMPin.cleanup (p, h)) = Returned tt ->
      PWMPin._started (fst (snd (PWMPin.cleanup (p, h)))) = false
      /\ last (hal_log (snd (snd (PWMPin.cleanup (p, h))))) = Some free).
Proof.
  intros halt free. subst halt free.
  assert (Hrun : PWMPin._started p = true ->
     PWMPin.cleanup (p, h)
     = if hal_faults h (hal_log h) (PwmStop (PWMPin.pin_number p))
       then (Raised (HardwareFault (PwmStop (PWMPin.pin_number p))), (p, h))
       else if hal_faults h (hal_log h ++ [PwmStop (PWMPin.pin_number p)])
                 (Cleanup (PWMPin.pin_number p))
            then (Raised (HardwareFault (Cleanup (PWMPin.pin_number p))),
                  (PWMPin.with_started false p,
                   logged (PwmStop (PWMPin.pin_number p)) h))
            else (Returned tt,
                  (PWMPin.with_started false p,
                   logged (Cleanup (PWMPin.pin_number p))
                     (logged (PwmStop (PWMPin.pin_number p)) h)))).
  { intros Hs. unfold PWMPin.cleanup, bind. rewrite (stop_running _ _ Hs).
    destruct (hal_faults h (hal_log h) _); [reflexivity|].
    unfold self, on_hal, hal_call. cbn [fst snd logged hal_log hal_faults].
    change (PWMPin.pin_number (PWMPin.with_started false p))
      with (PWMPin.pin_number p).
    destruct (hal_faults h _ _); reflexivity. }
  assert (Hidle : PWMPin._started p = false ->
     PWMPin.cleanup (p, h)
     = if hal_faults h (hal_log h) (Cleanup (PWMPin.pin_number p))
       then (Raised (HardwareFault (Cleanup (PWMPin.pin_number p))), (p, h))
       else (Returned tt, (p, logged (Cleanup (PWMPin.pin_number p)) h))).
  { intros Hs. unfold PWMPin.cleanup, bind. rewrite (stop_stopped _ _ Hs).
    unfold self, on_hal, hal_call. cbn [fst snd].
    destruct (hal_faults h (hal_log h) (Cleanup (PWMPin.pin_number p)));
      reflexivity. }
  split; [exact Hrun|]. split; [exact Hidle|].
  destruct (PWMPin._started p) eqn:Hs.
  - rewrite (Hrun eq_refl).
    destruct (hal_faults h (hal_log h) (PwmStop (PWMPin.pin_number p)));
      [discriminate 1|].
    destruct (hal_faults h _ (Cleanup (PWMPin.pin_number p)));
      [discriminate 1|].
    intros _. split; [reflexivity|]. cbn [fst snd logged hal_log].
    apply last_snoc.
  - rewrite (Hidle eq_refl).
    destruct (hal_faults h (hal_log h) (Cleanup (PWMPin.pin_number p)));
      [discriminate 1|].
    intros _. split; [exact Hs|]. cbn [fst snd logged hal_log].
    apply last_snoc.
Qed.

Lemma pwm_cleanup_stops_first_witness :
  let p := {| PWMPin.pin_number := 33; PWMPin.frequency := 1000;
              PWMPin._duty_cycle := 50; PWMPin._started := true |} in
  let h := mock_hal (Some BOARD) in
  PWMPin.cleanup (p, h)
  = (Returned tt,
     (PWMPin.with_started false p, logged (Cleanup 33) (logged (PwmStop 33) h))).
Proof.
  intros p h. apply (proj1 (pwm_cleanup_stops_first p h)). reflexivity.
Defined.

(** ** Repeated [toggle] *)

Lemma reliable_logged (c : HalCall) (h : Hal) : reliable h -> reliable (logged c h).
Proof. intros Hr l c'. apply Hr. Qed.

Lemma parity_step (n : nat) (v : Level) :
  (if Nat.even (S n) then v else invert v)
  = (if Nat.even n then invert v else invert (invert v)).
Proof.
  rewrite Nat.even_succ, <- Nat.negb_even.
  destruct (Nat.even n), v; reflexivity.
Qed.

(** On an output pin with a last known value and a driver that takes every
    write, [n] toggles in a row return, send exactly [n] writes that
    alternate starting with the inverse of that value, and leave the value
    as it was when [n] is even and inverted when [n] is odd; nothing else
    of the object changes. *)
Theorem toggles_alternate (n : nat) (d : DigitalPin.t) (h : Hal) (v : Level) :
  DigitalPin.direction d = OUT ->
  DigitalPin._current_value d = Some v ->
  reliable h ->
  exists h' : Hal,
    toggles n (d, h)
    = (Returned tt,
       (DigitalPin.with_value (Some (if Nat.even n then v else invert v)) d, h'))
    /\ hal_log h'
       = hal_log h ++ map (Output (DigitalPin.pin_number d)) (alternate n v)
    /\ hal_mode h' = hal_mode h.
Proof.
  revert d h v. induction n as [|n IH]; intros d h v Hdir Hv Hr.
  - exists h. cbn [toggles alternate map Nat.even]. rewrite app_nil_r.
    destruct d as [p dir cv]. cbn in Hv. subst cv. repeat split.
  - cbn [toggles alternate map]. unfold bind at 1.
    rewrite (toggle_output d h Hdir), Hv.
    change (default LOW (Some v)) with v. rewrite (Hr (hal_log h) _).
    set (d1 := DigitalPin.with_value (Some (invert v)) d).
    set (h1 := logged (Output (DigitalPin.pin_number d) (invert v)) h).
    destruct (IH d1 h1 (invert v) Hdir eq_refl (reliable_logged _ _ Hr))
      as (h' & Hrun & Hlog & Hmode).
    exists h'. rewrite Hrun, parity_step. split; [reflexivity|].
    split; [|exact Hmode].
    rewrite Hlog. subst h1. cbn [logged hal_log]. by rewrite <- app_assoc.
Qed.

Lemma toggles_alternate_witness :
  let d := {| DigitalPin.pin_number := 18; DigitalPin.direction := OUT;
              DigitalPin._current_value := Some LOW |} in
  exists h' : Hal,
    toggles 3 (d, mock_hal (Some BOARD))
    = (Returned tt, (DigitalPin.with_value (Some HIGH) d, h'))
    /\ hal_log h' = [Output 18 HIGH; Output 18 LOW; Output 18 HIGH]
    /\ hal_mode h' = Some BOARD.
Proof.
  intros d.
  apply (toggles_alternate 3 d (mock_hal (Some BOARD)) LOW);
    [reflexivity | reflexivity | intros l c; reflexivity].
Defined.

(** ** The board table, further *)

Lemma get_available_pins_cases (model : string) :
  get_available_pins model = unknown_board model
  \/ (exists pwm nts,
        (pwm = [15; 33] \/ pwm = [15; 18])
        /\ (forall p, p ∈ pwm -> is_Some (nts !! inl p))
        /\ (forall p, is_Some (nts !! inl p) -> p ∈ header_pins)
        /\ (forall k, nts !! inr k = None)
        /\ get_available_pins model
           = {| digital := header_pins; pwm_capable := pwm; notes := nts |}).
Proof.
  destruct (decide (model = "JETSON_ORIN_NANO")) as [->|H1]; [right|].
  2: destruct (decide (model = "JETSON_ORIN_NX")) as [->|H2]; [right|].
  3: destruct (decide (model = "JETSON_ORIN")) as [->|H3]; [right|].
  4: { left. unfold get_available_pins.
       by rewrite (board_pins_unknown model H1 H2 H3). }
  - eexists _, _. split; [by left|]. split; [|split; [|split; [|reflexivity]]].
    + intros p Hp. apply list_elem_of_In in Hp. cbn in Hp.
      destruct Hp as [<-|[<-|[]]]; by eexists.
    + intros p [x Hx]. unfold header_pins.
      destruct (decide (p = 15)) as [->|?]; [set_solver|].
      destruct (decide (p = 33)) as [->|?]; [set_solver|].
      destruct (decide (p = 36)) as [->|?]; [set_solver|].
      rewrite !lookup_insert_ne, lookup_empty in Hx by congruence. done.
    + intros k. by rewrite !lookup_insert_ne, lookup_empty by congruence.
  - eexists _, _. split; [by left|]. split; [|split; [|split; [|reflexivity]]].
    + intros p Hp. apply list_elem_of_In in Hp. cbn in Hp.
      destruct Hp as [<-|[<-|[]]]; by eexists.
    + intros p [x Hx]. unfold header_pins.
      destruct (decide (p = 15)) as [->|?]; [set_solver|].
      destruct (decide (p = 33)) as [->|?]; [set_solver|].
      rewrite !lookup_insert_ne, lookup_empty in Hx by congruence. done.
    + intros k. by rewrite !lookup_insert_ne, lookup_empty by congruence.
  - eexists _, _. split; [by right|]. split; [|split; [|split; [|reflexivity]]].
    + intros p Hp. apply list_elem_of_In in Hp. cbn in Hp.
      destruct Hp as [<-|[<-|[]]]; by eexists.
    + intros p [x Hx]. unfold header_pins.
      destruct (decide (p = 15)) as [->|?]; [set_solver|].
      destruct (decide (p = 18)) as [->|?]; [set_solver|].
      rewrite !lookup_insert_ne, lookup_empty in Hx by congruence. done.
    + intros k. by rewrite !lookup_insert_ne, lookup_empty by congruence.
Qed.

Lemma header_pins_on_header (p : Z) : p ∈ header_pins -> 1 <= p <= 40.
Proof.
  unfold header_pins. intros Hp. apply list_elem_of_In in Hp. cbn in Hp.
  repeat (destruct Hp as [<-|Hp]; [lia|]). destruct Hp.
Qed.

Lemma header_pins_NoDup : NoDup header_pins.
Proof. apply (bool_decide_unpack _). vm_compute. exact I. Qed.

(** For every model name, known or not, the table [get_available_pins]
    answers is consistent: every PWM-capable pin is also listed as a
    digital pin, every digital pin is a position of the 40-pin header, and
    no pin is listed twice. *)
Theorem board_table_consistent (model : string) :
  let info := get_available_pins model in
  (forall p, p ∈ pwm_capable info -> p ∈ digital info)
  /\ (forall p, p ∈ digital info -> 1 <= p <= 40)
  /\ NoDup (digital info)
  /\ NoDup (pwm_capable info).
Proof.
  intros info. subst info.
  destruct (get_available_pins_cases model)
    as [->|(pwm & nts & Hpwm & _ & _ & _ & ->)]; cbn [digital pwm_capable].
  - split; [intros p Hp; by apply not_elem_of_nil in Hp|].
    split; [apply header_pins_on_header|].
    split; [apply header_pins_NoDup|constructor].
  - split; [|split; [apply header_pins_on_header|split; [apply header_pins_NoDup|]]].
    + intros p Hp. unfold header_pins.
      destruct Hpwm as [->| ->]; apply list_elem_of_In in Hp; cbn in Hp;
        destruct Hp as [<-|[<-|[]]]; set_solver.
    + destruct Hpwm as [->| ->]; apply (bool_decide_unpack _); vm_compute; exact I.
Qed.

Lemma board_table_consistent_witness :
  15 ∈ digital (get_available_pins "JETSON_ORIN")
  /\ 1 <= 40 <= 40.
Proof.
  split.
  - apply (proj1 (board_table_consistent "JETSON_ORIN")).
    apply (bool_decide_unpack _). vm_compute. exact I.
  - apply (proj1 (proj2 (board_table_consistent "FOO_BOARD"))).
    apply (bool_decide_unpack _). vm_compute. exact I.
Defined.

(** The notes of a table follow its pins.  For every model name, every
    PWM-capable pin has a note, and every note filed under a pin number is
    for a digital pin.  A name that is not in [board_pins] gets exactly one
    note, filed under ['unknown'], that quotes the name. *)
Theorem board_notes_follow_pins (model : string) :
  let info := get_available_pins model in
  (forall p, p ∈ pwm_capable info -> is_Some (notes info !! inl p))
  /\ (forall p, is_Some (notes info !! inl p) -> p ∈ digital info)
  /\ (board_pins !! model = None ->
      notes info = {[ inr "unknown" := "Unknown board model: " +:+ model ]}).
Proof.
  intros info. subst info. split; [|split].
  - destruct (get_available_pins_cases model)
      as [->|(pwm & nts & _ & Hnote & _ & _ & ->)]; cbn [pwm_capable notes].
    + intros p Hp. by apply not_elem_of_nil in Hp.
    + exact Hnote.
  - destruct (get_available_pins_cases model)
      as [->|(pwm & nts & _ & _ & Hpin & _ & ->)]; unfold unknown_board;
      cbn [digital notes].
    + intros p [x Hx]. by rewrite lookup_insert_ne, lookup_empty in Hx.
    + exact Hpin.
  - intros Hnone. unfold get_available_pins. rewrite Hnone. reflexivity.
Qed.

Lemma board_notes_follow_pins_witness :
  notes (get_available_pins "FOO_BOARD")
  = {[ inr "unknown" := "Unknown board model: FOO_BOARD" ]}.
Proof.
  apply (proj2 (proj2 (board_notes_follow_pins "FOO_BOARD"))). reflexivity.
Defined.

(** * Properties of the functions of [utils.py] *)

(** ** [blink_led] *)

Lemma default_board_mode_reliable (h : Hal) :
  reliable h ->
  default_board_mode h
  = (Returned tt,
     match hal_mode h with None => logged (SetMode BOARD) h | Some _ => h end).
Proof.
  intros Hr. unfold default_board_mode, bind, getmode, ret.
  destruct (hal_mode h); [reflexivity|].
  apply hal_call_accepted, Hr.
Qed.





Lemma blink_led_exits (pin duration times : Z) (out : list string) (h : Hal) :
  exists (r : outcome unit) (out' : list string) (h' : Hal),
    blink_led pin duration times (out, h) = (r, (out', h'))
    /\ (last (hal_log h') = Some (Output pin LOW)
        \/ r = Raised (HardwareFault (Output pin LOW))
        \/ r = Raised (HardwareFault (SetMode BOARD))
        \/ r = Raised (HardwareFault (Setup pin OUT (Some LOW)))).
Proof.
  unfold blink_led, bind. unfold on_hal at 1 2. cbn [fst snd].
  assert (Hmode : (exists h0, default_board_mode h = (Returned tt, h0))
                  \/ default_board_mode h = (Raised (HardwareFault (SetMode BOARD)), h)).
  { unfold default_board_mode, bind, getmode, ret, hal_call.
    destruct (hal_mode h); cbn; [left; eexists; reflexivity|].
    destruct (hal_faults h (hal_log h) (SetMode BOARD));
      [by right|left; eexists; reflexivity]. }
  destruct Hmode as [[h0 ->]| ->]; cbn [fst snd].
  2: { eexists _, _, _. split; [reflexivity|]. right; right; by left. }
  unfold hal_call at 1.
  destruct (hal_faults h0 (hal_log h0) (Setup pin OUT (Some LOW))).
  { eexists _, _, _. split; [reflexivity|]. right; right; by right. }
  unfold try_finally.
  destruct (for_range _ _ _ _) as [r1 [out1 h1]].
  unfold on_hal, hal_call. cbn [fst snd].
  destruct (hal_faults h1 (hal_log h1) (Output pin LOW)).
  - eexists _, _, _. split; [reflexivity|]. right; by left.
  - eexists _, _, _. split; [reflexivity|]. left.
    cbn [logged hal_log]. apply last_snoc.
Qed.

(** Whatever the driver refuses and whatever [duration] and [times] are,
    once [blink_led] has set the pin up it ends with the write of low of
    its [finally] block: either that write is the last call the driver
    took, or the driver refused it and that refusal is what [blink_led]
    raises.  The only other ways out are a refused [setmode] or [setup],
    before the [try] is entered. *)
Theorem blink_led_ends_low (pin duration times : Z) (out : list string) (h : Hal) :
  let r := blink_led pin duration times (out, h) in
  last (hal_log (snd (snd r))) = Some (Output pin LOW)
  \/ fst r = Raised (HardwareFault (Output pin LOW))
  \/ fst r = Raised (HardwareFault (SetMode BOARD))
  \/ fst r = Raised (HardwareFault (Setup pin OUT (Some LOW))).
Proof.
  intros r. subst r.
  destruct (blink_led_exits pin duration times out h)
    as (r & out' & h' & -> & Hexit).
  exact Hexit.
Qed.

(** A negative [duration] shows the [finally] block at work: the first
    blink writes high, the sleep raises, and the pin is still written low
    on the way out. *)
Example blink_led_negative_duration :
  let r := blink_led 18 (-1) 5 ([], mock_hal (Some BOARD)) in
  fst r = Raised (ValueError "sleep length must be non-negative")
  /\ hal_log (snd (snd r))
     = [Setup 18 OUT (Some LOW); Output 18 HIGH; Output 18 LOW].
Proof. split; reflexivity. Qed.

(** ** [read_pin_state] *)

(** On a driver that takes every call, [read_pin_state] sets the mode to
    BOARD only when none is set, sets the pin up as an input whatever it
    was before, reads it once, prints the level by name and returns it.
    It has no check against another numbering mode: under any mode that is
    already set it goes on with the pin number as given. *)
Theorem read_pin_state_sets_up_input (pin : Z) (out : list string) (h : Hal) :
  reliable h ->
  let h0 := match hal_mode h with
            | None => logged (SetMode BOARD) h
            | Some _ => h
            end in
  let h1 := logged (Setup pin IN None) h0 in
  let v := hal_reads h (hal_log h1) pin in
  read_pin_state pin (out, h)
  = (Returned v,
     (out ++ ["Pin " +:+ pretty pin +:+ " state: "
              +:+ match v with HIGH => "HIGH" | LOW => "LOW" end],
      logged (Input pin) h1)).
Proof.
  intros Hr h0 h1 v.
  assert (Hr0 : reliable h0)
    by (subst h0; destruct (hal_mode h); [exact Hr|by apply reliable_logged]).
  assert (Hr1 : reliable h1) by (by apply reliable_logged).
  unfold read_pin_state, bind, on_hal, print, assign, ret, hal_input.
  cbn [fst snd]. rewrite (default_board_mode_reliable h Hr). fold h0.
  cbn [fst snd]. rewrite (hal_call_accepted _ _ (Hr0 _ _)). fold h1.
  cbn [fst snd]. rewrite (hal_call_accepted _ _ (Hr1 _ _)). cbn [fst snd].
  replace (hal_reads h1) with (hal_reads h)
    by (subst h1 h0; destruct (hal_mode h); reflexivity).
  fold v. destruct v; reflexivity.
Qed.

Lemma read_pin_state_sets_up_input_witness :
  read_pin_state 16 ([], mock_hal (Some BCM))
  = (Returned LOW,
     (["Pin 16 state: LOW"],
      logged (Input 16) (logged (Setup 16 IN None) (mock_hal (Some BCM))))).
Proof.
  apply (read_pin_state_sets_up_input 16 [] (mock_hal (Some BCM))).
  intros l c. reflexivity.
Defined.

(** ** [wait_for_signal] *)

(** [wait_for_signal] asks for BOARD numbering and does not set it: with
    no mode set, as with another mode, it raises its [ValueError] before
    any call on the driver, whatever [wait_for_edge] would have done.  With
    BOARD set it sets the pin up as an input and answers what the driver's
    [wait_for_edge] answers from there. *)
Theorem wait_for_signal_needs_board
  (wait_for_edge : Z -> Z -> option Z -> M Hal (option Z))
  (pin edge_type : Z) (timeout : option Z) (h : Hal) :
  (hal_mode h <> Some BOARD ->
     wait_for_signal wait_for_edge pin edge_type timeout h
     = (Raised mode_not_board, h))
  /\ (hal_mode h = Some BOARD ->
      wait_for_signal wait_for_edge pin edge_type timeout h
      = if hal_faults h (hal_log h) (Setup pin IN None)
        then (Raised (HardwareFault (Setup pin IN None)), h)
        else wait_for_edge pin edge_type timeout (logged (Setup pin IN None) h)).
Proof.
  unfold wait_for_signal, bind, getmode, raise, hal_call. split; intros Hm.
  - destruct (decide (hal_mode h <> Some BOARD)); [reflexivity|done].
  - destruct (decide (hal_mode h <> Some BOARD)); [done|].
    destruct (hal_faults h (hal_log h) (Setup pin IN None)); reflexivity.
Qed.

Lemma wait_for_signal_needs_board_witness :
  wait_for_signal (fun pin _ _ => ret (Some pin)) 16 0 None (mock_hal None)
  = (Raised mode_not_board, mock_hal None)
  /\ wait_for_signal (fun pin _ _ => ret (Some pin)) 16 0 None (mock_hal (Some BOARD))
     = (Returned (Some 16), logged (Setup 16 IN None) (mock_hal (Some BOARD))).
Proof.
  split.
  - apply (proj1 (wait_for_signal_needs_board
                    (fun pin _ _ => ret (Some pin)) 16 0 None (mock_hal None))).
    discriminate.
  - apply (proj2 (wait_for_signal_needs_board
                    (fun pin _ _ => ret (Some pin)) 16 0 None
                    (mock_hal (Some BOARD)))).
    reflexivity.
Defined.

(** * Invariants of a program that uses the two classes *)

(** ** What one call does *)

Ltac log_grows :=
  first
    [ exists []; split; [by rewrite app_nil_r|]
    | eexists [_]; split; [reflexivity|]
    | eexists [_; _]; split; [by rewrite <- app_assoc|] ].

Ltac run_method :=
  unfold bind, ret, raise, on_hal, self, assign, hal_input, hal_call;
  cbn [fst snd];
  repeat (first
    [ match goal with
      | |- context [hal_faults ?h ?l ?c] => destruct (hal_faults h l c) eqn:?
      end
    | match goal with
      | |- context [decide ?P] => destruct (decide P)
      end
    | match goal with
      | |- context [PWMPin._started ?p] =>
          is_var p; destruct (PWMPin._started p) eqn:?
      end ];
    cbn [fst snd logged hal_log hal_faults hal_mode PWMPin._started
         PWMPin.with_started PWMPin.with_duty_cycle PWMPin.with_frequency
         PWMPin.pin_number PWMPin._duty_cycle DigitalPin.with_value
         DigitalPin.pin_number DigitalPin.direction]).

Lemma set_high_effect (d : DigitalPin.t) (h : Hal) :
  dpin_effect d h (fst (snd (DigitalPin.set_high (d, h))))
                  (snd (snd (DigitalPin.set_high (d, h)))).
Proof.
  unfold dpin_effect, DigitalPin.set_high. run_method;
    (split; [reflexivity|]); (split; [reflexivity|]); log_grows; reflexivity.
Qed.

Lemma set_low_effect (d : DigitalPin.t) (h : Hal) :
  dpin_effect d h (fst (snd (DigitalPin.set_low (d, h))))
                  (snd (snd (DigitalPin.set_low (d, h)))).
Proof.
  unfold dpin_effect, DigitalPin.set_low. run_method;
    (split; [reflexivity|]); (split; [reflexivity|]); log_grows; reflexivity.
Qed.

Lemma toggle_effect (d : DigitalPin.t) (h : Hal) :
  dpin_effect d h (fst (snd (DigitalPin.toggle (d, h))))
                  (snd (snd (DigitalPin.toggle (d, h)))).
Proof.
  unfold DigitalPin.toggle, bind, self, raise. cbn [fst snd].
  destruct (decide (DigitalPin.direction d <> OUT)).
  - repeat split. log_grows. reflexivity.
  - destruct (decide _); [apply set_low_effect|apply set_high_effect].
Qed.

Lemma read_effect (d : DigitalPin.t) (h : Hal) :
  dpin_effect d h (fst (snd (DigitalPin.read (d, h))))
                  (snd (snd (DigitalPin.read (d, h)))).
Proof.
  unfold dpin_effect, DigitalPin.read. run_method;
    (split; [reflexivity|]); (split; [reflexivity|]); log_grows; reflexivity.
Qed.

Lemma dpin_cleanup_effect (d : DigitalPin.t) (h : Hal) :
  dpin_effect d h (fst (snd (DigitalPin.cleanup (d, h))))
                  (snd (snd (DigitalPin.cleanup (d, h)))).
Proof.
  unfold dpin_effect, DigitalPin.cleanup. run_method;
    (split; [reflexivity|]); (split; [reflexivity|]); log_grows; reflexivity.
Qed.

Lemma start_effect (dc : Z) (p : PWMPin.t) (h : Hal) :
  ppin_effect p h (fst (snd (PWMPin.start dc (p, h))))
                  (snd (snd (PWMPin.start dc (p, h)))).
Proof.
  unfold ppin_effect, PWMPin.start.
  destruct (PWMPin.in_range dc) eqn:Hr; cbn [negb].
  - apply in_range_true in Hr.
    unfold bind, assign, self, on_hal, hal_call. cbn [fst snd].
    change (PWMPin.pin_number (PWMPin.with_duty_cycle dc p))
      with (PWMPin.pin_number p).
    destruct (hal_faults h (hal_log h) _); cbn [fst snd].
    + split; [reflexivity|]. split; [intros _; exact Hr|].
      log_grows. split; [reflexivity|]. intros Hs. left. exact Hs.
    + split; [reflexivity|]. split; [intros _; exact Hr|].
      log_grows. split; [reflexivity|]. intros _. right. cbn.
      by rewrite bool_decide_eq_true_2.
  - split; [reflexivity|]. split; [done|].
    log_grows. split; [reflexivity|]. intros Hs. by left.
Qed.

Lemma stop_effect (p : PWMPin.t) (h : Hal) :
  ppin_effect p h (fst (snd (PWMPin.stop (p, h))))
                  (snd (snd (PWMPin.stop (p, h)))).
Proof.
  unfold ppin_effect. destruct (PWMPin._started p) eqn:Hs.
  - rewrite (stop_running p h Hs).
    destruct (hal_faults h (hal_log h) _); cbn [fst snd].
    + split; [reflexivity|]. split; [done|].
      log_grows. split; [reflexivity|]. by left.
    + split; [reflexivity|]. split; [done|].
      log_grows. split; [reflexivity|]. discriminate 1.
  - rewrite (stop_stopped p h Hs). cbn [fst snd].
    split; [reflexivity|]. split; [done|].
    log_grows. split; [reflexivity|]. intros Hs'. congruence.
Qed.

Lemma change_frequency_effect (f : Z) (p : PWMPin.t) (h : Hal) :
  ppin_effect p h (fst (snd (PWMPin.change_frequency f (p, h))))
                  (snd (snd (PWMPin.change_frequency f (p, h)))).
Proof.
  unfold ppin_effect, PWMPin.change_frequency.
  unfold bind, assign, self, on_hal, hal_call, ret. cbn [fst snd].
  change (PWMPin._started (PWMPin.with_frequency f p)) with (PWMPin._started p).
  change (PWMPin.pin_number (PWMPin.with_frequency f p))
    with (PWMPin.pin_number p).
  destruct (PWMPin._started p) eqn:Hs; cbn [fst snd].
  - destruct (hal_faults h (hal_log h) _); cbn [fst snd];
      (split; [reflexivity|]); (split; [done|]);
      log_grows; (split; [reflexivity|]); intros _; by left.
  - split; [reflexivity|]. split; [done|].
    log_grows. split; [reflexivity|]. cbn. rewrite Hs. discriminate 1.
Qed.

Lemma change_duty_cycle_effect (dc : Z) (p : PWMPin.t) (h : Hal) :
  ppin_effect p h (fst (snd (PWMPin.change_duty_cycle dc (p, h))))
                  (snd (snd (PWMPin.change_duty_cycle dc (p, h)))).
Proof.
  unfold ppin_effect, PWMPin.change_duty_cycle.
  destruct (PWMPin.in_range dc) eqn:Hr; cbn [negb].
  - apply in_range_true in Hr.
    unfold bind, assign, self, on_hal, hal_call, ret. cbn [fst snd].
    change (PWMPin._started (PWMPin.with_duty_cycle dc p))
      with (PWMPin._started p).
    change (PWMPin.pin_number (PWMPin.with_duty_cycle dc p))
      with (PWMPin.pin_number p).
    destruct (PWMPin._started p) eqn:Hs; cbn [fst snd].
    + destruct (hal_faults h (hal_log h) _); cbn [fst snd];
        (split; [reflexivity|]); (split; [intros _; exact Hr|]);
        log_grows; (split; [reflexivity|]); intros _; by left.
    + split; [reflexivity|]. split; [intros _; exact Hr|].
      log_grows. split; [reflexivity|]. cbn. rewrite Hs. discriminate 1.
  - split; [reflexivity|]. split; [done|].
    log_grows. split; [reflexivity|]. intros Hs. by left.
Qed.

Lemma ppin_effect_trans (p1 p2 p3 : PWMPin.t) (h1 h2 h3 : Hal) :
  ppin_effect p1 h1 p2 h2 -> ppin_effect p2 h2 p3 h3 -> ppin_effect p1 h1 p3 h3.
Proof.
  intros (Hn1 & Hd1 & l1 & Hl1 & Hm1 & Hs1) (Hn2 & Hd2 & l2 & Hl2 & Hm2 & Hs2).
  split; [congruence|]. split; [tauto|].
  exists (l1 ++ l2). split; [by rewrite Hl2, Hl1, app_assoc|].
  split; [by rewrite forallb_app, Hm1, Hm2|].
  intros Hs. rewrite existsb_app, orb_true_iff.
  destruct (Hs2 Hs) as [H2|H2].
  - destruct (Hs1 H2) as [H1|H1]; [by left|right; by left].
  - right. right. by rewrite <- Hn1.
Qed.

Lemma pwm_cleanup_effect (p : PWMPin.t) (h : Hal) :
  ppin_effect p h (fst (snd (PWMPin.cleanup (p, h))))
                  (snd (snd (PWMPin.cleanup (p, h)))).
Proof.
  assert (Hc : PWMPin.cleanup (p, h)
               = match PWMPin.stop (p, h) with
                 | (Returned _, s') =>
                     (q <- self ;;
                      on_hal (hal_call (Cleanup (PWMPin.pin_number q)))) s'
                 | (Raised e, s') => (Raised e, s')
                 end) by reflexivity.
  rewrite Hc. clear Hc.
  pose proof (stop_effect p h) as Hstop.
  destruct (PWMPin.stop (p, h)) as [[[]|e] [p1 h1]]; cbn [fst snd] in *;
    [|exact Hstop].
  eapply ppin_effect_trans; [exact Hstop|].
  unfold ppin_effect, bind, self, on_hal, hal_call. cbn [fst snd].
  destruct (hal_faults h1 (hal_log h1) _); cbn [fst snd];
    (split; [reflexivity|]); (split; [done|]);
    log_grows; (split; [reflexivity|]); intros Hs; by left.
Qed.

Lemma ensure_board_mode_effect (h : Hal) :
  exists l : list HalCall,
    hal_log (snd (ensure_board_mode h)) = hal_log h ++ l
    /\ (fst (ensure_board_mode h) = Returned tt ->
        hal_mode (snd (ensure_board_mode h)) = Some BOARD).
Proof.
  rewrite ensure_board_mode_cases. destruct (hal_mode h) as [m|] eqn:Hm.
  - destruct (decide (m = BOARD)) as [->|Hne]; cbn [fst snd].
    + log_grows. intros _. exact Hm.
    + log_grows. discriminate 1.
  - unfold hal_call. destruct (hal_faults h (hal_log h) _); cbn [fst snd].
    + log_grows. discriminate 1.
    + log_grows. intros _. reflexivity.
Qed.

Lemma digital_new_effect (pin dir : Z) (v : option Level) (h : Hal) :
  exists l : list HalCall,
    hal_log (snd (DigitalPin.new pin dir v h)) = hal_log h ++ l
    /\ forall d : DigitalPin.t,
         fst (DigitalPin.new pin dir v h) = Returned d ->
         (DigitalPin.direction d = OUT \/ DigitalPin.direction d = IN)
         /\ existsb (sets_up (DigitalPin.pin_number d) (DigitalPin.direction d)) l
            = true
         /\ hal_mode (snd (DigitalPin.new pin dir v h)) = Some BOARD.
Proof.
  destruct (ensure_board_mode_effect h) as (l0 & Hl0 & Hm0).
  unfold DigitalPin.new, DigitalPin.__init__, bind, assign, on_hal.
  cbn [fst snd].
  destruct (ensure_board_mode h) as [[[]|e] h1]; cbn [fst snd] in *.
  2: { exists l0. split; [exact Hl0|]. discriminate 1. }
  specialize (Hm0 eq_refl).
  destruct (decide (dir = OUT)) as [->|Hout]; cbn [fst snd].
  - unfold hal_call. destruct (hal_faults h1 (hal_log h1) _); cbn [fst snd].
    + exists l0. split; [exact Hl0|]. discriminate 1.
    + exists (l0 ++ [Setup pin OUT v]). cbn.
      split; [by rewrite Hl0, app_assoc|].
      intros d [= <-]. cbn. split; [by left|]. split; [|exact Hm0].
      rewrite existsb_app, orb_true_iff. right. cbn.
      by rewrite bool_decide_eq_true_2.
  - destruct (decide (dir = IN)) as [->|Hin]; cbn [fst snd].
    + unfold hal_call. destruct (hal_faults h1 (hal_log h1) _); cbn [fst snd].
      * exists l0. split; [exact Hl0|]. discriminate 1.
      * exists (l0 ++ [Setup pin IN None]). cbn.
        split; [by rewrite Hl0, app_assoc|].
        intros d [= <-]. cbn. split; [by right|]. split; [|exact Hm0].
        rewrite existsb_app, orb_true_iff. right. cbn.
        by rewrite bool_decide_eq_true_2.
    + exists l0. split; [exact Hl0|]. discriminate 1.
Qed.

Lemma pwm_new_effect (pin freq : Z) (h : Hal) :
  exists l : list HalCall,
    hal_log (snd (PWMPin.new pin freq h)) = hal_log h ++ l
    /\ forall p : PWMPin.t,
         fst (PWMPin.new pin freq h) = Returned p ->
         PWMPin._started p = false
         /\ PWMPin._duty_cycle p = 0
         /\ hal_mode (snd (PWMPin.new pin freq h)) = Some BOARD.
Proof.
  destruct (ensure_board_mode_effect h) as (l0 & Hl0 & Hm0).
  unfold PWMPin.new, bind, ret.
  destruct (ensure_board_mode h) as [[[]|e] h1]; cbn [fst snd] in *.
  2: { exists l0. split; [exact Hl0|]. intros p Hp; discriminate Hp. }
  specialize (Hm0 eq_refl).
  unfold hal_call.
  destruct (hal_faults h1 (hal_log h1) (Setup pin OUT (Some LOW)));
    cbn [fst snd logged hal_log hal_faults].
  { exists l0. split; [exact Hl0|]. intros p Hp; discriminate Hp. }
  destruct (hal_faults h1 _ (PwmNew pin freq)); cbn [fst snd logged hal_log].
  - exists (l0 ++ [Setup pin OUT (Some LOW)]).
    split; [by rewrite Hl0, app_assoc|]. intros p Hp; discriminate Hp.
  - exists (l0 ++ [Setup pin OUT (Some LOW); PwmNew pin freq]).
    split; [by rewrite Hl0, <- !app_assoc|].
    intros p [= <-]. cbn. repeat split. exact Hm0.
Qed.

Lemma on_dpin_transition {A} (i : nat) (m : M (DigitalPin.t * Hal) A) (w : World) :
  (forall d h, dpin_effect d h (fst (snd (m (d, h)))) (snd (snd (m (d, h))))) ->
  transition w (snd (on_dpin i m w)).
Proof.
  intros Hm. unfold on_dpin.
  destruct (dpins w !! i) as [d|] eqn:Hi; [|apply t_same].
  specialize (Hm d (hal w)).
  destruct (m (d, hal w)) as [r [d' h']]. cbn [fst snd] in *.
  by eapply t_dpin.
Qed.

Lemma on_ppin_transition {A} (i : nat) (m : M (PWMPin.t * Hal) A) (w : World) :
  (forall p h, ppin_effect p h (fst (snd (m (p, h)))) (snd (snd (m (p, h))))) ->
  transition w (snd (on_ppin i m w)).
Proof.
  intros Hm. unfold on_ppin.
  destruct (ppins w !! i) as [p|] eqn:Hi; [|apply t_same].
  specialize (Hm p (hal w)).
  destruct (m (p, hal w)) as [r [p' h']]. cbn [fst snd] in *.
  by eapply t_ppin.
Qed.

Lemma perform_transition (c : Call) (w : World) : transition w (snd (perform c w)).
Proof.
  destruct c as [pin dir v| | | | | |pin freq| | | | | ]; cbn [perform].
  - destruct (digital_new_effect pin dir v (hal w)) as (l & Hl & Hd).
    destruct (DigitalPin.new pin dir v (hal w)) as [[d|e] h']; cbn [fst snd] in *.
    + destruct (Hd d eq_refl) as (Hdir & Hset & Hmode). by eapply t_new_dpin.
    + by eapply t_driver.
  - apply on_dpin_transition, set_high_effect.
  - apply on_dpin_transition, set_low_effect.
  - apply on_dpin_transition, toggle_effect.
  - apply on_dpin_transition, read_effect.
  - apply on_dpin_transition, dpin_cleanup_effect.
  - destruct (pwm_new_effect pin freq (hal w)) as (l & Hl & Hp).
    destruct (PWMPin.new pin freq (hal w)) as [[p|e] h']; cbn [fst snd] in *.
    + destruct (Hp p eq_refl) as (Hs & Hdc & Hmode). by eapply t_new_ppin.
    + by eapply t_driver.
  - apply on_ppin_transition, start_effect.
  - apply on_ppin_transition, stop_effect.
  - apply on_ppin_transition, change_frequency_effect.
  - apply on_ppin_transition, change_duty_cycle_effect.
  - apply on_ppin_transition, pwm_cleanup_effect.
Qed.

(** ** Objects keep their identity *)

Lemma transition_identity (w w' : World) :
  transition w w' ->
  (forall i d, dpins w !! i = Some d ->
     exists d', dpins w' !! i = Some d'
       /\ DigitalPin.pin_number d' = DigitalPin.pin_number d
       /\ DigitalPin.direction d' = DigitalPin.direction d)
  /\ (forall i p, ppins w !! i = Some p ->
      exists p', ppins w' !! i = Some p'
        /\ PWMPin.pin_number p' = PWMPin.pin_number p).
Proof.
  intros [|h' l Hl|d0 h' l Hl Hdir Hset Hmode|p0 h' l Hl Hs Hdc Hmode
          |j d0 d1 h' Hj Heff|j p0 p1 h' Hj Heff]; cbn [dpins ppins];
    (split; [intros i d Hi|intros i p Hi]); eauto.
  - exists d. split; [|done]. by apply lookup_app_l_Some.
  - exists p. split; [|done]. by apply lookup_app_l_Some.
  - destruct (decide (j = i)) as [->|Hne].
    + exists d1. split.
      * apply list_lookup_insert_eq. by eapply lookup_lt_Some.
      * destruct Heff as (Hn & Hd & _). rewrite Hj in Hi.
        injection Hi as <-. done.
    + exists d. split; [|done]. by rewrite list_lookup_insert_ne.
  - destruct (decide (j = i)) as [->|Hne].
    + exists p1. split.
      * apply list_lookup_insert_eq. by eapply lookup_lt_Some.
      * destruct Heff as (Hn & _). rewrite Hj in Hi. injection Hi as <-. done.
    + exists p. split; [|done]. by rewrite list_lookup_insert_ne.
Qed.

(** Over any program, an object stays where it is and what it is: the
    digital pin created [i]-th is still the [i]-th afterwards, with the
    pin number and the direction it was created with, and so is a PWM pin
    with its pin number.  No method moves a wrapper to another pin, and
    no call, [cleanup] included, removes one. *)
Theorem objects_keep_identity (cs : list Call) (w : World) :
  (forall (i : nat) (d : DigitalPin.t),
     dpins w !! i = Some d ->
     exists d' : DigitalPin.t,
       dpins (run cs w) !! i = Some d'
       /\ DigitalPin.pin_number d' = DigitalPin.pin_number d
       /\ DigitalPin.direction d' = DigitalPin.direction d)
  /\ (forall (i : nat) (p : PWMPin.t),
      ppins w !! i = Some p ->
      exists p' : PWMPin.t,
        ppins (run cs w) !! i = Some p'
        /\ PWMPin.pin_number p' = PWMPin.pin_number p).
Proof.
  revert w. induction cs as [|c cs IH]; intros w; cbn [run].
  - split; eauto.
  - destruct (transition_identity _ _ (perform_transition c w)) as [Hd Hp].
    destruct (IH (snd (perform c w))) as [IHd IHp]. split.
    + intros i d Hi. destruct (Hd i d Hi) as (d1 & Hi1 & Hn1 & Hdir1).
      destruct (IHd i d1 Hi1) as (d2 & Hi2 & Hn2 & Hdir2).
      exists d2. split; [exact Hi2|]. split; congruence.
    + intros i p Hi. destruct (Hp i p Hi) as (p1 & Hi1 & Hn1).
      destruct (IHp i p1 Hi1) as (p2 & Hi2 & Hn2).
      exists p2. split; [exact Hi2|]. congruence.
Qed.

Lemma objects_keep_identity_witness :
  exists d' : DigitalPin.t,
    dpins (run [DToggle 0; DCleanup 0; NewDigitalPin 18 IN None]
               (run [NewDigitalPin 18 OUT None] (boot (mock_hal None))))
      !! 0%nat = Some d'
    /\ DigitalPin.pin_number d' = 18
    /\ DigitalPin.direction d' = OUT.
Proof.
  apply (proj1 (objects_keep_identity
                  [DToggle 0; DCleanup 0; NewDigitalPin 18 IN None]
                  (run [NewDigitalPin 18 OUT None] (boot (mock_hal None))))
           0%nat
           {| DigitalPin.pin_number := 18; DigitalPin.direction := OUT;
              DigitalPin._current_value := Some LOW |}).
  reflexivity.
Defined.

(** ** The duty cycle stays within bounds *)

Lemma transition_duty (w w' : World) :
  transition w w' -> Forall duty_ok (ppins w) -> Forall duty_ok (ppins w').
Proof.
  intros [|h' l Hl|d0 h' l Hl Hdir Hset Hmode|p0 h' l Hl Hs Hdc Hmode
          |j d0 d1 h' Hj Heff|j p0 p1 h' Hj Heff] Hw; cbn [ppins]; try exact Hw.
  - apply Forall_app. split; [exact Hw|]. apply Forall_singleton.
    unfold duty_ok. rewrite Hdc. lia.
  - apply Forall_insert; [exact Hw|].
    destruct Heff as (_ & Hok & _). apply Hok. by eapply Forall_lookup_1.
Qed.

Lemma run_duty (cs : list Call) (w : World) :
  Forall duty_ok (ppins w) -> Forall duty_ok (ppins (run cs w)).
Proof.
  revert w. induction cs as [|c cs IH]; intros w Hw; cbn [run]; [exact Hw|].
  apply IH. eapply transition_duty; [apply perform_transition|exact Hw].
Qed.

(** Whatever a program does with the two classes, successful calls and
    failed ones alike, the duty cycle stored in every PWM pin it holds is
    between 0 and 100. *)
Theorem duty_cycle_always_within_bounds
  (cs : list Call) (h0 : Hal) (i : nat) (p : PWMPin.t) :
  ppins (run cs (boot h0)) !! i = Some p ->
  0 <= PWMPin._duty_cycle p <= 100.
Proof.
  intros Hi.
  eapply (Forall_lookup_1 duty_ok); [|exact Hi]. apply run_duty. constructor.
Qed.

Lemma duty_cycle_always_within_bounds_witness :
  0 <= PWMPin._duty_cycle
         {| PWMPin.pin_number := 33; PWMPin.frequency := 1000;
            PWMPin._duty_cycle := 50; PWMPin._started := true |} <= 100.
Proof.
  apply (duty_cycle_always_within_bounds
           [NewPWMPin 33 1000; PStart 0 50; PChangeDutyCycle 0 150; PStart 0 (-10)]
           (mock_hal None) 0%nat).
  reflexivity.
Defined.

(** ** The driver's log accounts for the objects *)

Lemma existsb_app_l {A} (f : A -> bool) (l l' : list A) :
  existsb f l = true -> existsb f (l ++ l') = true.
Proof. intros H. by rewrite existsb_app, H. Qed.

Lemma existsb_app_r {A} (f : A -> bool) (l l' : list A) :
  existsb f l' = true -> existsb f (l ++ l') = true.
Proof. intros H. rewrite existsb_app, H. apply orb_true_r. Qed.

Lemma accounted_grows (l l' : list HalCall) (w : World) :
  accounted l w -> accounted (l ++ l') w.
Proof.
  intros [Hp Hd]. split.
  - intros i p Hi Hs. by eapply existsb_app_l, Hp.
  - intros i d Hi. destruct (Hd i d Hi) as [Hdir Hset].
    split; [exact Hdir|]. by apply existsb_app_l.
Qed.

Lemma transition_accounted (l0 l : list HalCall) (w w' : World) :
  transition w w' ->
  hal_log (hal w) = l0 ++ l -> accounted l w ->
  exists l', hal_log (hal w') = l0 ++ l' /\ accounted l' w'.
Proof.
  intros [|h' l1 Hl|d0 h' l1 Hl Hdir Hset Hmode|p0 h' l1 Hl Hs Hdc Hmode
          |j d0 d1 h' Hj Heff|j p0 p1 h' Hj Heff] Hlog Hacc.
  - by exists l.
  - exists (l ++ l1). cbn [hal]. split; [by rewrite Hl, Hlog, app_assoc|].
    destruct (accounted_grows l l1 w Hacc) as [Hp Hd]. by split.
  - exists (l ++ l1). cbn [hal]. split; [by rewrite Hl, Hlog, app_assoc|].
    destruct (accounted_grows l l1 w Hacc) as [Hp Hd]. split; [exact Hp|].
    cbn [dpins]. intros i d Hi. apply lookup_app_Some in Hi.
    destruct Hi as [Hi|[_ Hi]]; [by apply (Hd i)|].
    apply list_lookup_singleton_Some in Hi. destruct Hi as [_ <-].
    split; [exact Hdir|]. by apply existsb_app_r.
  - exists (l ++ l1). cbn [hal]. split; [by rewrite Hl, Hlog, app_assoc|].
    destruct (accounted_grows l l1 w Hacc) as [Hp Hd]. split; [|exact Hd].
    cbn [ppins]. intros i p Hi Hrun. apply lookup_app_Some in Hi.
    destruct Hi as [Hi|[_ Hi]]; [by apply (Hp i)|].
    apply list_lookup_singleton_Some in Hi. destruct Hi as [_ <-]. congruence.
  - destruct Heff as (Hn & Hdr & l1 & Hl & _).
    exists (l ++ l1). cbn [hal]. split; [by rewrite Hl, Hlog, app_assoc|].
    destruct (accounted_grows l l1 w Hacc) as [Hp Hd]. split; [exact Hp|].
    cbn [dpins]. intros i d Hi. apply list_lookup_insert_Some in Hi.
    destruct Hi as [(-> & <- & _)|[_ Hi]]; [|by apply (Hd i)].
    rewrite Hn, Hdr. by apply (Hd i).
  - destruct Heff as (Hn & _ & l1 & Hl & _ & Hst).
    exists (l ++ l1). cbn [hal]. split; [by rewrite Hl, Hlog, app_assoc|].
    destruct (accounted_grows l l1 w Hacc) as [Hp Hd]. split; [|exact Hd].
    cbn [ppins]. intros i p Hi Hrun. apply list_lookup_insert_Some in Hi.
    destruct Hi as [(-> & <- & _)|[_ Hi]]; [|by apply (Hp i)].
    rewrite Hn. destruct (Hst Hrun) as [Hbefore|Hnow].
    + by apply (Hp i).
    + by apply existsb_app_r.
Qed.

Lemma run_accounted (cs : list Call) (l0 l : list HalCall) (w : World) :
  hal_log (hal w) = l0 ++ l -> accounted l w ->
  exists l', hal_log (hal (run cs w)) = l0 ++ l' /\ accounted l' (run cs w).
Proof.
  revert l w. induction cs as [|c cs IH]; intros l w Hlog Hacc; cbn [run].
  - by exists l.
  - destruct (transition_accounted l0 l w _ (perform_transition c w) Hlog Hacc)
      as (l1 & Hlog1 & Hacc1).
    by apply (IH l1).
Qed.

Lemma boot_accounted (cs : list Call) (h0 : Hal) :
  exists l : list HalCall,
    hal_log (hal (run cs (boot h0))) = hal_log h0 ++ l
    /\ accounted l (run cs (boot h0)).
Proof.
  apply (run_accounted cs (hal_log h0) []).
  - cbn. by rewrite app_nil_r.
  - split; intros i x Hi; cbn in Hi; by rewrite lookup_nil in Hi.
Qed.

(** A PWM pin is marked running only after the driver took a [start] for
    its pin: in every world a program reaches from an empty one, the calls
    the driver took since then include a [start] on the pin of every PWM
    object whose [_started] is set. *)
Theorem running_only_after_start
  (cs : list Call) (h0 : Hal) (i : nat) (p : PWMPin.t) :
  ppins (run cs (boot h0)) !! i = Some p ->
  PWMPin._started p = true ->
  exists l : list HalCall,
    hal_log (hal (run cs (boot h0))) = hal_log h0 ++ l
    /\ existsb (starts (PWMPin.pin_number p)) l = true.
Proof.
  intros Hi Hs. destruct (boot_accounted cs h0) as (l & Hlog & Hp & _).
  exists l. split; [exact Hlog|]. by apply (Hp i).
Qed.

Lemma running_only_after_start_witness :
  exists l : list HalCall,
    hal_log (hal (run [NewPWMPin 33 1000; PStart 0 50; PChangeFrequency 0 2000]
                      (boot (mock_hal None))))
    = hal_log (mock_hal None) ++ l
    /\ existsb (starts 33) l = true.
Proof.
  apply (running_only_after_start
           [NewPWMPin 33 1000; PStart 0 50; PChangeFrequency 0 2000]
           (mock_hal None) 0%nat
           {| PWMPin.pin_number := 33; PWMPin.frequency := 2000;
              PWMPin._duty_cycle := 50; PWMPin._started := true |});
    reflexivity.
Defined.

(** Every digital pin a program holds is a proper one: its direction is
    [GPIO.OUT] or [GPIO.IN], no other value survives the constructor, and
    since the program began the driver took a [setup] of its pin in that
    direction. *)
Theorem digital_pins_are_set_up
  (cs : list Call) (h0 : Hal) (i : nat) (d : DigitalPin.t) :
  dpins (run cs (boot h0)) !! i = Some d ->
  (DigitalPin.direction d = OUT \/ DigitalPin.direction d = IN)
  /\ exists l : list HalCall,
       hal_log (hal (run cs (boot h0))) = hal_log h0 ++ l
       /\ existsb (sets_up (DigitalPin.pin_number d) (DigitalPin.direction d)) l
          = true.
Proof.
  intros Hi. destruct (boot_accounted cs h0) as (l & Hlog & _ & Hd).
  destruct (Hd i d Hi) as [Hdir Hset]. split; [exact Hdir|].
  exists l. by split.
Qed.

Lemma digital_pins_are_set_up_witness :
  (IN = OUT \/ IN = IN)
  /\ exists l : list HalCall,
       hal_log (hal (run [NewDigitalPin 18 7 None; NewDigitalPin 16 IN None; DRead 0]
                         (boot (mock_hal None))))
       = hal_log (mock_hal None) ++ l
       /\ existsb (sets_up 16 IN) l = true.
Proof.
  apply (digital_pins_are_set_up
           [NewDigitalPin 18 7 None; NewDigitalPin 16 IN None; DRead 0]
           (mock_hal None) 0%nat
           {| DigitalPin.pin_number := 16; DigitalPin.direction := IN;
              DigitalPin._current_value := Some LOW |}).
  reflexivity.
Defined.

(** ** Objects exist only under BOARD numbering *)

Lemma perform_board (c : Call) (w : World) :
  (dpins w <> [] \/ ppins w <> [] -> hal_mode (hal w) = Some BOARD) ->
  dpins (snd (perform c w)) <> [] \/ ppins (snd (perform c w)) <> [] ->
  hal_mode (hal (snd (perform c w))) = Some BOARD.
Proof.
  intros Hinv Hne.
  destruct (decide (dpins w = [] /\ ppins w = [])) as [[Hd Hp]|Hsome].
  - destruct (perform_transition c w)
      as [|h' l Hl|d0 h' l Hl Hdir Hset Hmode|p0 h' l Hl Hs Hdc Hmode
          |j d0 d1 h' Hj Heff|j p0 p1 h' Hj Heff]; cbn [hal dpins ppins] in *;
      try assumption.
    + destruct Hne as [Hne|Hne]; by destruct Hne.
    + destruct Hne as [Hne|Hne]; by destruct Hne.
    + by rewrite Hd, lookup_nil in Hj.
    + by rewrite Hp, lookup_nil in Hj.
  - apply (sticky_perform c w BOARD). apply Hinv.
    destruct (dpins w); [|left; discriminate].
    destruct (ppins w); [|right; discriminate].
    by destruct Hsome.
Qed.

(** A program that holds any object of the two classes runs under BOARD
    numbering: from an empty world and whatever mode the driver was in, as
    soon as a construction has succeeded the driver's mode is BOARD, and it
    is still BOARD after every later call. *)
Theorem objects_imply_board_mode (cs : list Call) (h0 : Hal) :
  dpins (run cs (boot h0)) <> [] \/ ppins (run cs (boot h0)) <> [] ->
  hal_mode (hal (run cs (boot h0))) = Some BOARD.
Proof.
  assert (Hrun : forall w,
            (dpins w <> [] \/ ppins w <> [] -> hal_mode (hal w) = Some BOARD) ->
            dpins (run cs w) <> [] \/ ppins (run cs w) <> [] ->
            hal_mode (hal (run cs w)) = Some BOARD).
  { induction cs as [|c cs IH]; intros w Hinv; cbn [run]; [exact Hinv|].
    apply IH. by apply perform_board. }
  apply Hrun. intros [Hne|Hne]; by destruct Hne.
Qed.

Lemma objects_imply_board_mode_witness :
  hal_mode (hal (run [NewDigitalPin 18 OUT None; NewPWMPin 33 1000; PCleanup 0]
                     (boot (mock_hal None)))) = Some BOARD.
Proof.
  apply (objects_imply_board_mode
           [NewDigitalPin 18 OUT None; NewPWMPin 33 1000; PCleanup 0]
           (mock_hal None)).
  left. discriminate.
Defined.

(** ** Methods leave the set-up alone *)

Lemma on_dpin_quiet {A} (i : nat) (m : M (DigitalPin.t * Hal) A) (w : World) :
  (forall d h, dpin_effect d h (fst (snd (m (d, h)))) (snd (snd (m (d, h))))) ->
  length (dpins (snd (on_dpin i m w))) = length (dpins w)
  /\ ppins (snd (on_dpin i m w)) = ppins w
  /\ exists l : list HalCall,
       hal_log (hal (snd (on_dpin i m w))) = hal_log (hal w) ++ l
       /\ forallb is_method_call l = true.
Proof.
  intros Hm. unfold on_dpin. destruct (dpins w !! i) as [d|] eqn:Hi.
  - specialize (Hm d (hal w)). destruct (m (d, hal w)) as [r [d' h']].
    cbn [fst snd hal dpins ppins] in *. destruct Hm as (_ & _ & l & Hl & Hq).
    split; [apply length_insert|]. split; [reflexivity|]. by exists l.
  - cbn [snd]. split; [reflexivity|]. split; [reflexivity|].
    exists []. by rewrite app_nil_r.
Qed.

Lemma on_ppin_quiet {A} (i : nat) (m : M (PWMPin.t * Hal) A) (w : World) :
  (forall p h, ppin_effect p h (fst (snd (m (p, h)))) (snd (snd (m (p, h))))) ->
  dpins (snd (on_ppin i m w)) = dpins w
  /\ length (ppins (snd (on_ppin i m w))) = length (ppins w)
  /\ exists l : list HalCall,
       hal_log (hal (snd (on_ppin i m w))) = hal_log (hal w) ++ l
       /\ forallb is_method_call l = true.
Proof.
  intros Hm. unfold on_ppin. destruct (ppins w !! i) as [p|] eqn:Hi.
  - specialize (Hm p (hal w)). destruct (m (p, hal w)) as [r [p' h']].
    cbn [fst snd hal dpins ppins] in *.
    destruct Hm as (_ & _ & l & Hl & Hq & _).
    split; [reflexivity|]. split; [apply length_insert|]. by exists l.
  - cbn [snd]. split; [reflexivity|]. split; [reflexivity|].
    exists []. by rewrite app_nil_r.
Qed.

(** A method call never touches the set-up: whatever method of either
    class is called, on whatever object and with whatever outcome, the
    program holds as many objects as before, and the calls the driver took
    are writes, reads, clean-ups of a pin and calls on a PWM channel, never
    a [setmode], a [setup] or the creation of a PWM channel. *)
Theorem methods_leave_setup_alone (c : Call) (w : World) :
  is_method c = true ->
  length (dpins (snd (perform c w))) = length (dpins w)
  /\ length (ppins (snd (perform c w))) = length (ppins w)
  /\ exists l : list HalCall,
       hal_log (hal (snd (perform c w))) = hal_log (hal w) ++ l
       /\ forallb is_method_call l = true.
Proof.
  assert (Hd : forall A i (m : M (DigitalPin.t * Hal) A),
            (forall d h, dpin_effect d h (fst (snd (m (d, h))))
                                         (snd (snd (m (d, h))))) ->
            length (dpins (snd (on_dpin i m w))) = length (dpins w)
            /\ length (ppins (snd (on_dpin i m w))) = length (ppins w)
            /\ exists l, hal_log (hal (snd (on_dpin i m w))) = hal_log (hal w) ++ l
                         /\ forallb is_method_call l = true).
  { intros A i m Hm. destruct (on_dpin_quiet i m w Hm) as (H1 & H2 & H3).
    split; [exact H1|]. split; [by rewrite H2|exact H3]. }
  assert (Hp : forall A i (m : M (PWMPin.t * Hal) A),
            (forall p h, ppin_effect p h (fst (snd (m (p, h))))
                                         (snd (snd (m (p, h))))) ->
            length (dpins (snd (on_ppin i m w))) = length (dpins w)
            /\ length (ppins (snd (on_ppin i m w))) = length (ppins w)
            /\ exists l, hal_log (hal (snd (on_ppin i m w))) = hal_log (hal w) ++ l
                         /\ forallb is_method_call l = true).
  { intros A i m Hm. destruct (on_ppin_quiet i m w Hm) as (H1 & H2 & H3).
    split; [by rewrite H1|]. split; [exact H2|exact H3]. }
  destruct c; cbn [is_method perform]; intros Hc; try discriminate Hc.
  - apply Hd, set_high_effect.
  - apply Hd, set_low_effect.
  - apply Hd, toggle_effect.
  - apply Hd, read_effect.
  - apply Hd, dpin_cleanup_effect.
  - apply Hp, start_effect.
  - apply Hp, stop_effect.
  - apply Hp, change_frequency_effect.
  - apply Hp, change_duty_cycle_effect.
  - apply Hp, pwm_cleanup_effect.
Qed.

Lemma methods_leave_setup_alone_witness :
  let w := run [NewPWMPin 33 1000; PStart 0 50] (boot (mock_hal None)) in
  length (dpins (snd (perform (PCleanup 0) w))) = length (dpins w)
  /\ length (ppins (snd (perform (PCleanup 0) w))) = length (ppins w)
  /\ exists l : list HalCall,
       hal_log (hal (snd (perform (PCleanup 0) w))) = hal_log (hal w) ++ l
       /\ forallb is_method_call l = true.
Proof.
  intros w. apply (methods_leave_setup_alone (PCleanup 0) w). reflexivity.
Defined.
